(** * Advertiser frame decoder and inventory ingestion loop

    A shallow embedding of
    - [wirepas_backend_client/messages/decoders/advertiser.py]
      (class [AdvertiserMessage]: [count], [decode], [__init__]), and
    - [wirepas_backend_client/test/kpi_adv.py]
      ([AdvertiserManager.test_inventory], the ingestion loop),
    together with the properties of the specification that concern them.

    Python values are modelled as follows: [bytes] is [list byte], an [int] is
    [Z] (unbounded, as in Python), a [float] is a primitive IEEE-754 binary64
    float, [None]-able values are [option]s, the dictionary
    [self.apdu["adv"]] is a [gmap Z node], and a raised exception is the
    [Raise] branch of [result]. *)

From Stdlib Require Import ZArith Strings.Byte PrimFloat Uint63 FloatOps SpecFloat.
From stdpp Require Import gmap list strings pretty sorting.

Local Open Scope Z_scope.

(** ** The fragment of Python the decoder relies on *)

Module Py.

(** The exceptions the modelled code can raise, by Python class. *)
Inductive exception :=
| StructError   (* struct.error: unpack requires a buffer of n bytes *)
| IndexError    (* tuple index out of range *)
| KeyError.     (* missing dictionary key *)

Definition class_name (e : exception) : string :=
  match e with
  | StructError => "struct.error"
  | IndexError => "IndexError"
  | KeyError => "KeyError"
  end.

Inductive result (A : Type) :=
| Ok (a : A)
| Raise (e : exception).
Arguments Ok {A} a.
Arguments Raise {A} e.

#[global] Instance result_ret : MRet result := fun _ a => Ok a.
#[global] Instance result_bind : MBind result := fun _ _ f r =>
  match r with
  | Ok a => f a
  | Raise e => Raise e
  end.

(** A value stored in a ["value"] list: an [int] or a [float]. *)
Inductive number :=
| PyInt (n : Z)
| PyFloat (f : float).

(** [s[i:j]] for [0 <= i <= j]; slicing never raises. *)
Definition slice {A} (i j : nat) (s : list A) : list A :=
  take (j - i) (drop i s).

(** [s[i:]]. *)
Definition slice_from {A} (i : nat) (s : list A) : list A := drop i s.

Definition byte_to_int (b : byte) : Z := Z.of_N (Byte.to_N b).

(** [struct.Struct("<B ... B").unpack(buffer)] with [size] fields of one
    unsigned byte each: the buffer must have exactly [size] bytes. *)
Definition unpack (size : nat) (buffer : list byte) : result (list Z) :=
  if (length buffer =? size)%nat then Ok (byte_to_int <$> buffer)
  else Raise StructError.

(** [values[i]] on a tuple, for [i >= 0]. *)
Definition getitem (values : list Z) (i : nat) : result Z :=
  match values !! i with
  | Some v => Ok v
  | None => Raise IndexError
  end.

(** [values[-1]]. *)
Definition getitem_last (values : list Z) : result Z :=
  match last values with
  | Some v => Ok v
  | None => Raise IndexError
  end.

(** Conversion of a small non-negative [int] to [float] (exact below 2^53;
    the decoder only converts bytes and the literals 2 and 127). *)
Definition float_of_int (z : Z) : float := PrimFloat.of_uint63 (Uint63.of_Z z).

(** [a / b] on two ints (true division) and [x - c] with an int [c]. *)
Definition truediv (a b : Z) : float :=
  PrimFloat.div (float_of_int a) (float_of_int b).
Definition fsub_int (x : float) (c : Z) : float :=
  PrimFloat.sub x (float_of_int c).

(** Truth value of an optional float / optional int in an [if]:
    [None], [0.0] and [0] are false. *)
Definition truthy_float (x : option float) : bool :=
  match x with
  | Some f => negb (PrimFloat.eqb f PrimFloat.zero)
  | None => false
  end.
Definition truthy_int (x : option Z) : bool :=
  match x with
  | Some n => negb (n =? 0)
  | None => false
  end.

End Py.
Import Py.

(** ** tools.chunker *)

(** Modelled from the spec: [tools.chunker] lives in [tools/utils.py], which
    is outside the modules embedded here.  The spec says that the body "is
    consumed in fixed chunks of [address_width + 1] bytes" and that "a
    trailing chunk" may be "shorter than [address_width + 1]": the sequence
    is cut from the left into pieces of [size] elements, the last piece
    holding what remains.  [fuel] bounds the number of pieces. *)
Fixpoint chunker_from {A} (fuel : nat) (seq : list A) (size : nat) : list (list A) :=
  match fuel, seq with
  | O, _ => []
  | _, [] => []
  | S fuel', _ => take size seq :: chunker_from fuel' (drop size seq) size
  end.

Definition chunker {A} (seq : list A) (size : nat) : list (list A) :=
  chunker_from (length seq) seq size.

(** ** Data model *)

(** One entry of [self.apdu["adv"]]:
    [dict(time=None, rss=list(), otap=list(), value=list())]. *)
Record node := Node {
  time : option Z;
  rss : list float;
  otap : list Z;
  value : list number;
}.

Definition new_node : node :=
  {| time := None; rss := []; otap := []; value := [] |}.

Definition set_time (t : Z) (n : node) : node :=
  {| time := Some t; rss := rss n; otap := otap n; value := value n |}.
Definition append_rss (x : float) (n : node) : node :=
  {| time := time n; rss := rss n ++ [x]; otap := otap n; value := value n |}.
Definition append_otap (x : Z) (n : node) : node :=
  {| time := time n; rss := rss n; otap := otap n ++ [x]; value := value n |}.
Definition append_value (x : number) (n : node) : node :=
  {| time := time n; rss := rss n; otap := otap n; value := value n ++ [x] |}.

(** The fields of an [AdvertiserMessage] instance that [count] and [decode]
    read or write. [timestamp] is [rx_time_ms_epoch]. *)
Record AdvertiserMessage := Message {
  data_payload : list byte;
  timestamp : Z;
  adv : gmap Z node;                 (* apdu["adv"] *)
  adv_type : option Z;               (* apdu["adv_type"] *)
  adv_reserved_field : option Z;     (* apdu["adv_reserved_field"] *)
  index : option Z;
}.

Definition set_adv (d : gmap Z node) (self : AdvertiserMessage) : AdvertiserMessage :=
  {| data_payload := data_payload self; timestamp := timestamp self;
     adv := d; adv_type := adv_type self;
     adv_reserved_field := adv_reserved_field self; index := index self |}.
Definition set_header (ty reserved : Z) (self : AdvertiserMessage) : AdvertiserMessage :=
  {| data_payload := data_payload self; timestamp := timestamp self;
     adv := adv self; adv_type := Some ty;
     adv_reserved_field := Some reserved; index := index self |}.
Definition set_index (i : Z) (self : AdvertiserMessage) : AdvertiserMessage :=
  {| data_payload := data_payload self; timestamp := timestamp self;
     adv := adv self; adv_type := adv_type self;
     adv_reserved_field := adv_reserved_field self; index := Some i |}.

(** Class attributes. *)
Definition message_type_rss : Z := 2.
Definition message_type_otap : Z := 3.

(** ** AdvertiserMessage.count, decode and the constructor *)

(** [message_counter] is a class attribute shared by all messages: it is
    threaded explicitly.  Returns the new counter and the updated message
    (whose [index] is also the method's return value). *)
Definition count (message_counter : Z) (self : AdvertiserMessage)
  : Z * AdvertiserMessage :=
  let message_counter := message_counter + 1 in
  (message_counter, set_index message_counter self).

(** Modelled from the spec: [GenericMessage.decode] (the base class, in
    [messages/decoders/generic.py]) is outside the modules embedded here.  The
    spec's decoder starts with the header, so the base method is taken to do
    nothing. *)
Definition generic_decode (self : AdvertiserMessage) : result AdvertiserMessage :=
  Ok self.

(** [self.apdu["adv"][address][...]] updated in place. *)
Definition update_node (f : node -> node) (address : Z) (d : gmap Z node)
  : result (gmap Z node) :=
  match d !! address with
  | Some n => Ok (<[address := f n]> d)
  | None => Raise KeyError
  end.

(** Lines 118-127: the three locals [rss], [otap], [value] of a record. *)
Definition classify (ty : option Z) (raw : Z)
  : option float * option Z * number :=
  if bool_decide (ty = Some message_type_rss) then
    let rss_ := fsub_int (truediv raw 2) 127 in
    (Some rss_, None, PyFloat rss_)
  else if bool_decide (ty = Some message_type_otap) then
    (None, Some raw, PyInt raw)
  else (None, None, PyInt raw).

(** Lines 129-141: the record is filed under its address. *)
Definition store (ts : Z) (address : Z)
    (sample : option float * option Z * number) (d : gmap Z node)
  : result (gmap Z node) :=
  let '(rss_, otap_, value_) := sample in
  let d := match d !! address with
           | None => <[address := new_node]> d
           | Some _ => d
           end in
  d ← update_node (set_time ts) address d;
  if truthy_float rss_ then
    update_node (append_rss (default PrimFloat.zero rss_)) address d
  else if truthy_int otap_ then
    update_node (append_otap (default 0 otap_)) address d
  else
    update_node (append_value value_) address d.

(** One pass of the [for chunk in ...] loop (lines 106-141). *)
Definition decode_chunk (address_len size : nat)
    (self : AdvertiserMessage) (chunk : list byte) : result AdvertiserMessage :=
  if (length chunk <? address_len + 1)%nat then Ok self   (* continue *)
  else
    values ← unpack size chunk;
    v0 ← getitem values 0;
    v1 ← getitem values 1;
    v2 ← getitem values 2;
    let address := Z.lor (Z.lor v0 (Z.shiftl v1 8)) (Z.shiftl v2 16) in
    address ← (if (address_len =? 4)%nat
               then v3 ← getitem values 3; Ok (Z.lor address (Z.shiftl v3 24))
               else Ok address);
    raw ← getitem_last values;
    d ← store (timestamp self) address (classify (adv_type self) raw) (adv self);
    Ok (set_adv d self).

Fixpoint for_each {A S} (body : S -> A -> result S) (s : S) (l : list A)
  : result S :=
  match l with
  | [] => Ok s
  | x :: l' => s' ← body s x; for_each body s' l'
  end.

Definition decode (self : AdvertiserMessage) : result AdvertiserMessage :=
  self ← generic_decode self;
  header ← unpack 2 (slice 0 2 (data_payload self));
  h0 ← getitem header 0;
  h1 ← getitem header 1;
  let self := set_header (Z.land h0 0x7F) h1 self in
  let address_4byte := Z.shiftr h0 7 in
  let '(size, address_len) :=
    if address_4byte =? 1 then (5%nat, 4%nat) else (4%nat, 3%nat) in
  let body := slice_from 2 (data_payload self) in
  for_each (decode_chunk address_len size) self (chunker body size).

(** The constructor: the payload and the receive time come from the base
    class constructor; the message is then counted and decoded.  The counter
    is incremented before [decode] runs, so it stays incremented when
    [decode] raises. *)
Definition init (message_counter : Z) (payload : list byte) (rx_time_ms_epoch : Z)
  : Z * result AdvertiserMessage :=
  let self := {| data_payload := payload; timestamp := rx_time_ms_epoch;
                 adv := ∅; adv_type := None; adv_reserved_field := None;
                 index := None |} in
  let '(message_counter, self) := count message_counter self in
  (message_counter, decode self).

(** ** The frame as the specification describes it *)

(** [type = buffer[0] & 0x7F]. *)
Definition frame_type (b0 : byte) : Z := Z.land (byte_to_int b0) 0x7F.

(** [address_width = 4 if bit 7 of buffer[0] is set else 3]. *)
Definition address_width (b0 : byte) : nat :=
  if Z.testbit (byte_to_int b0) 7 then 4%nat else 3%nat.

(** Little-endian value of a byte string: byte 0 is least significant. *)
Definition little_endian (bs : list byte) : Z :=
  foldr (λ b acc, byte_to_int b + 256 * acc) 0 bs.

(** The body cut into chunks of [width + 1] bytes, short chunks left out. *)
Definition full_chunks (width : nat) (body : list byte) : list (list byte) :=
  filter (λ c, length c = S width) (chunker body (S width)).

(** A record is an address and a raw value byte. *)
Definition record_of (width : nat) (chunk : list byte) : Z * Z :=
  (little_endian (take width chunk), byte_to_int (default x00 (last chunk))).

Definition records (width : nat) (body : list byte) : list (Z * Z) :=
  record_of width <$> full_chunks width body.

(** ** The effect of a frame, as total functions *)

(** Which list of the node a classified sample is appended to. *)
Definition file_sample (sample : option float * option Z * number) (n : node) : node :=
  let '(rss_, otap_, value_) := sample in
  if truthy_float rss_ then append_rss (default PrimFloat.zero rss_) n
  else if truthy_int otap_ then append_otap (default 0 otap_) n
  else append_value value_ n.

(** The effect of one record on the dictionary, as a total function. *)
Definition put (ts : Z) (ty : option Z) (d : gmap Z node) (r : Z * Z)
  : gmap Z node :=
  <[r.1 := file_sample (classify ty r.2) (set_time ts (default new_node (d !! r.1)))]> d.

(** Number of samples held for one address, and in the whole dictionary. *)
Definition sample_count (n : node) : nat :=
  (length (rss n) + length (otap n) + length (value n))%nat.

Definition node_samples (d : gmap Z node) (address : Z) : nat :=
  from_option sample_count 0%nat (d !! address).

Definition total_samples (d : gmap Z node) : nat :=
  map_fold (λ _ n acc, (sample_count n + acc)%nat) 0%nat d.

Definition wire_format (address_len size : nat) : Prop :=
  (address_len = 3%nat /\ size = 4%nat) \/ (address_len = 4%nat /\ size = 5%nat).

(** Number of records of a frame that carry a given address. *)
Definition records_for (a : Z) (rs : list (Z * Z)) : nat :=
  length (filter (λ r, r.1 = a) rs).

(** ** Notions used to state the properties *)

(** Twice the value of a float that is a multiple of one half. *)
Definition twice (x : float) : option Z :=
  match Prim2SF x with
  | S754_zero _ => Some 0
  | S754_finite sign m e =>
      let magnitude :=
        if 0 <=? e + 1 then Some (Z.pos m * 2 ^ (e + 1))
        else if Z.pos m mod 2 ^ (- (e + 1)) =? 0
             then Some (Z.pos m / 2 ^ (- (e + 1)))
             else None in
      (λ v, if sign then - v else v) <$> magnitude
  | _ => None
  end.

Definition set_payload (payload : list byte) (self : AdvertiserMessage)
  : AdvertiserMessage :=
  {| data_payload := payload; timestamp := timestamp self;
     adv := adv self; adv_type := adv_type self;
     adv_reserved_field := adv_reserved_field self; index := index self |}.

(** Routing by truth value, in the words of property C9: in a frame of type
    [ty], a record of raw value [raw] goes to the ["value"] list when the
    decoded rss is 0.0 (raw 254 in an RSS frame) or the otap is 0, to the
    list of its kind when the decoded value is not zero, and to ["value"] in
    frames of any other type. *)
Definition route_by_truthiness (ty raw : Z) (n : node) : node :=
  if ty =? message_type_rss then
    if raw =? 254 then append_value (PyFloat 0%float) n
    else append_rss (fsub_int (truediv raw 2) 127) n
  else if ty =? message_type_otap then
    if raw =? 0 then append_value (PyInt 0) n
    else append_otap raw n
  else append_value (PyInt raw) n.

(** [n'] holds the samples of [n], in the same order, and maybe more. *)
Definition extends (n n' : node) : Prop :=
  rss n `prefix_of` rss n'
  /\ otap n `prefix_of` otap n'
  /\ value n `prefix_of` value n'.

(** ** Decoding the same message again *)

(** [n] further calls of [decode] on a message. *)
Fixpoint decode_again (n : nat) (self : AdvertiserMessage)
  : result AdvertiserMessage :=
  match n with
  | O => Ok self
  | S n' => self' ← decode self; decode_again n' self'
  end.

(** [tests/test_advertiser.py], lines 135-136: the loop counts and decodes
    the message it has just received. *)
Definition count_and_decode (message_counter : Z) (message : AdvertiserMessage)
  : Z * result AdvertiserMessage :=
  let '(message_counter, message) := count message_counter message in
  (message_counter, decode message).

(** ** The inventory run of [AdvertiserManager.test_inventory] *)

(** The [Inventory] class of [wirepas_backend_client.management] is a
    collaborator of the loop: the loop only calls the methods below.
    [is_out_of_time] reads the clock and is answered by the environment
    instead. *)
Class InventoryOps (I : Type) := {
  inventory_add : Z -> list float -> list Z -> option Z -> I -> I;
  is_complete : I -> bool;
  is_otaped : I -> bool;
  is_frequency_reached : I -> bool;
}.

(** What the environment answers during one pass of the [while] loop:
    whether the exit signal is set, what [rx_queue.get(timeout=1)] yields
    ([None] for [queue.Empty]), what [is_out_of_time()] returns and the size
    reported by the storage queue. *)
Record answers := Answers {
  exit_is_set : bool;
  rx_get : option AdvertiserMessage;
  out_of_time : bool;
  storage_qsize : Z;
}.

(** The calls the loop makes to its collaborators, in order. *)
Inductive event :=
| PollExit (answer : bool)                      (* exit_signal.is_set() *)
| Dequeue (answer : option AdvertiserMessage)   (* rx_queue.get(...) *)
| AskOutOfTime (answer : bool)                  (* inventory.is_out_of_time() *)
| LogDebug                                      (* "... are not being received" *)
| LogInfo                                       (* logger.info(...) *)
| LogCritical                                   (* "storage queue is too big" *)
| StoragePut (message : AdvertiserMessage).     (* storage_queue.put(message) *)

(** Why the loop was left. *)
Inductive reason :=
| Cancelled          (* the [while] condition found the exit signal set *)
| TimedOut           (* [break] after [is_out_of_time()] *)
| Complete           (* [break] after [is_complete()] *)
| Otaped             (* [break] after [is_otaped()] *)
| FrequencyReached.  (* [break] after [is_frequency_reached()] *)

Inductive control :=
| Continue
| Leave (why : reason).

Record manager (I : Type) := Manager {
  inventory : I;
  has_storage_queue : bool;
  empty_counter : Z;
  events : list event;
}.
Arguments Manager {I}.
Arguments inventory {I}.
Arguments has_storage_queue {I}.
Arguments empty_counter {I}.
Arguments events {I}.

Section Ingestion.
Context {I : Type} `{InventoryOps I}.

Definition emit (e : event) (m : manager I) : manager I :=
  Manager (inventory m) (has_storage_queue m) (empty_counter m) (events m ++ [e]).
Definition set_empty_counter (c : Z) (m : manager I) : manager I :=
  Manager (inventory m) (has_storage_queue m) c (events m).
Definition set_inventory (i : I) (m : manager I) : manager I :=
  Manager i (has_storage_queue m) (empty_counter m) (events m).

(** Lines 136-142: every entry of [message.apdu["adv"]] is added (in the
    order of the map; the loop's exits do not depend on it). *)
Definition add_all (message : AdvertiserMessage) (i : I) : I :=
  foldl (λ i entry,
           inventory_add entry.1 (rss entry.2) (otap entry.2) (time entry.2) i)
        i (map_to_list (adv message)).

(** One pass of the [while] loop, lines 111-166. *)
Definition iteration (m : manager I) (env : answers) : control * manager I :=
  let m := emit (PollExit (exit_is_set env)) m in
  if exit_is_set env then (Leave Cancelled, m)
  else
    let m := emit (Dequeue (rx_get env)) m in
    match rx_get env with
    | None =>                                    (* except queue.Empty *)
        let m := set_empty_counter (empty_counter m + 1) m in
        let m := if 10 <? empty_counter m
                 then set_empty_counter 0 (emit LogDebug m)
                 else m in
        let m := emit (AskOutOfTime (out_of_time env)) m in
        if out_of_time env then (Leave TimedOut, m) else (Continue, m)
    | Some message =>
        let m := set_empty_counter 0 m in
        let m := emit LogInfo m in
        let m := if has_storage_queue m
                 then let m := emit (StoragePut message) m in
                      if 100 <? storage_qsize env then emit LogCritical m else m
                 else m in
        let m := set_inventory (add_all message (inventory m)) m in
        let m := emit (AskOutOfTime (out_of_time env)) m in
        if out_of_time env then (Leave TimedOut, m)
        else if is_complete (inventory m) then (Leave Complete, emit LogInfo m)
        else if is_otaped (inventory m) then (Leave Otaped, emit LogInfo m)
        else if is_frequency_reached (inventory m)
             then (Leave FrequencyReached, emit LogInfo m)
             else (Continue, m)
    end.

(** The loop, for as long as the environment's answers are known: [None]
    when it is still running after the last of them. *)
Fixpoint run (m : manager I) (envs : list answers) : option reason * manager I :=
  match envs with
  | [] => (None, m)
  | env :: envs' =>
      match iteration m env with
      | (Continue, m') => run m' envs'
      | (Leave why, m') => (Some why, m')
      end
  end.

(** Lines 108-166.  The class attribute [AdvertiserMessage.message_counter]
    is passed in and out; what comes before (sequence number, [wait()],
    start signal) and after (report) touches neither it nor the loop. *)
Definition test_inventory (message_counter : Z) (m : manager I)
    (envs : list answers) : Z * (option reason * manager I) :=
  let message_counter := 0 in
  let m := set_empty_counter 0 m in
  (message_counter, run m envs).

End Ingestion.

(** Messages constructed one after the other from a given counter. *)
Fixpoint construct_all (message_counter : Z) (frames : list (list byte * Z))
  : Z * list (result AdvertiserMessage) :=
  match frames with
  | [] => (message_counter, [])
  | frame :: frames' =>
      let '(message_counter, r) := init message_counter frame.1 frame.2 in
      let '(message_counter, rs) := construct_all message_counter frames' in
      (message_counter, r :: rs)
  end.

(** ** The inventory *)

(** Modelled from the spec: the [Inventory] class lives in the management
    module, outside the modules embedded here.  Section 4.2 of the spec:
    [add] "creates the NodeRecord if absent; appends each non-empty sample
    list onto the stored lists; sets [last_seen = timestamp]
    unconditionally"; [is_complete] holds when "[target_nodes] is non-empty
    and is a subset of observed addresses"; [is_otaped] when "[target_otap]
    [is] configured and every node in scope (the target set if configured,
    else every observed node) has logged at least one OTAP sample equal to
    [target_otap]"; [is_frequency_reached] when "[target_frequency] [is]
    configured and the maximum per-node total sample count ... is >=
    [target_frequency]". *)
Record Inventory := {
  target_nodes : gset Z;
  target_otap_sequence : option Z;
  target_frequency : option nat;
  nodes : gmap Z node;
}.

Definition Inventory_add (node_address : Z) (rss_ : list float)
    (otap_sequence : list Z) (timestamp_ : option Z) (i : Inventory) : Inventory :=
  let n := default new_node (nodes i !! node_address) in
  {| target_nodes := target_nodes i;
     target_otap_sequence := target_otap_sequence i;
     target_frequency := target_frequency i;
     nodes := <[node_address := {| time := timestamp_;
                                   rss := rss n ++ rss_;
                                   otap := otap n ++ otap_sequence;
                                   value := value n |}]> (nodes i) |}.

Definition Inventory_is_complete (i : Inventory) : bool :=
  bool_decide (target_nodes i ≠ ∅ /\ target_nodes i ⊆ dom (nodes i)).

Definition Inventory_is_otaped (i : Inventory) : bool :=
  match target_otap_sequence i with
  | None => false
  | Some target =>
      let scope := if decide (target_nodes i = ∅) then dom (nodes i)
                   else target_nodes i in
      forallb (λ a, match nodes i !! a with
                    | Some n => bool_decide (target ∈ otap n)
                    | None => false
                    end) (elements scope)
  end.

Definition Inventory_is_frequency_reached (i : Inventory) : bool :=
  match target_frequency i with
  | None => false
  | Some target =>
      bool_decide (target <= map_fold (λ _ n acc, sample_count n `max` acc) 0 (nodes i))%nat
  end.

#[global] Instance Inventory_ops : InventoryOps Inventory := {
  inventory_add := Inventory_add;
  is_complete := Inventory_is_complete;
  is_otaped := Inventory_is_otaped;
  is_frequency_reached := Inventory_is_frequency_reached;
}.

Definition is_poll (e : event) : bool :=
  match e with PollExit _ => true | _ => false end.
Definition is_dequeue (e : event) : bool :=
  match e with Dequeue _ => true | _ => false end.

(** How often the exit signal was polled, and the queue read. *)
Definition polls (es : list event) : nat := length (List.filter is_poll es).
Definition dequeues (es : list event) : nat := length (List.filter is_dequeue es).

(** ** Sample frames and states *)

Definition frame_rss_two : list byte :=
  [x02; x00; x01; x00; x00; x64; x02; x00; x00; xfe; xaa].

Definition lookup_decoded (r : result AdvertiserMessage) (address : Z)
  : option node :=
  match r with
  | Ok m => adv m !! address
  | Raise _ => None
  end.

Definition frame_otap_tail : list byte :=
  [x83; x00; x01; x02; x03; x04; x05; x0a; x0b; x0c; x0d; x06; xff; xff].

Definition frame_rss_repeat : list byte :=
  [x02; x00; x07; x00; x00; x64; x07; x00; x00; xfe; x07; x00; x00; x66].

Definition empty_inventory : Inventory :=
  {| target_nodes := {[ 1 ]}; target_otap_sequence := None;
     target_frequency := None; nodes := ∅ |}.

Definition queued_frame : AdvertiserMessage :=
  Message frame_rss_two 12 {[ 1 := Node (Some 12) [(-77)%float] [] [] ]}
    (Some 2) (Some 0) (Some 1).

(** ** Further notions *)

(** What the lists of a node may hold after frames of type [ty] only: the
    ["rss"] list holds non-zero half-dB values between -127 and 0.5 and is
    used by RSS frames only, the ["otap"] list holds non-zero bytes and is
    used by OTAP frames only, and the ["value"] list holds what the other two
    refuse: 0.0 in RSS frames, 0 in OTAP frames, any byte otherwise. *)
Definition lists_follow_type (ty : Z) (n : node) : Prop :=
  Forall (λ x, exists t, twice x = Some t /\ -254 <= t <= 1 /\ t ≠ 0) (rss n)
  /\ Forall (λ x, 1 <= x <= 255) (otap n)
  /\ (ty ≠ message_type_rss -> rss n = [])
  /\ (ty ≠ message_type_otap -> otap n = [])
  /\ Forall (λ v, if ty =? message_type_rss then v = PyFloat 0%float
                  else if ty =? message_type_otap then v = PyInt 0
                  else exists x, v = PyInt x /\ 0 <= x <= 255) (value n).

(** Equality of bytes is decidable. *)
#[global] Instance byte_eq_decision : EqDecision byte := Byte.byte_eq_dec.

(** How often the loop logged that no messages are being received, and how
    often it handed a message to the storage queue. *)
Definition is_debug (e : event) : bool :=
  match e with LogDebug => true | _ => false end.
Definition is_storage_put (e : event) : bool :=
  match e with StoragePut _ => true | _ => false end.
Definition debug_logs (es : list event) : nat := length (List.filter is_debug es).
Definition storage_puts (es : list event) : list event := List.filter is_storage_put es.

(** ** kpi_adv.fetch_report *)

(** The reporting loop between test runs.  In run [i] the environment
    answers [rx_queue.get(timeout=...)] ([None] for [queue.Empty]) and then
    [exit_signal.is_set()]. *)
Record report_answers (R : Type) := ReportAnswers {
  report_get : option R;
  report_exit_is_set : bool;
}.
Arguments ReportAnswers {R}.
Arguments report_get {R}.
Arguments report_exit_is_set {R}.

(** How [fetch_report] ends: with [RuntimeError], or by writing the collected
    reports as JSON to a file, after some warnings about missing reports. *)
Inductive fetch_outcome (R : Type) :=
| RaisedRuntimeError
| ToJson (filepath : string) (reports : gmap nat R) (warnings : nat).
Arguments RaisedRuntimeError {R}.
Arguments ToJson {R}.

(** Lines 212-222: the [for run in range(0, number_of_runs)] loop, from run
    [run] on with [remaining] runs to go; [None] when [RuntimeError] is
    raised. *)
Fixpoint fetch_loop {R} (env : nat -> report_answers R) (run remaining : nat)
    (reports : gmap nat R) (warnings : nat) : option (gmap nat R * nat) :=
  match remaining with
  | O => Some (reports, warnings)
  | S remaining' =>
      let '(reports, warnings) :=
        match report_get (env run) with
        | Some report => (<[run := report]> reports, warnings)
        | None => (reports, S warnings)          (* logger.warning(...) *)
        end in
      if report_exit_is_set (env run) then None   (* raise RuntimeError *)
      else fetch_loop env (S run) remaining' reports warnings
  end.

(** Lines 208-232.  [output] and [output_time] are [args.output] and
    [args.output_time]; [now] is [datetime.datetime.now().isoformat()]. *)
Definition fetch_report {R} (output : string) (output_time : bool) (now : string)
    (number_of_runs : Z) (env : nat -> report_answers R) : fetch_outcome R :=
  match fetch_loop env 0 (Z.to_nat number_of_runs) ∅ 0 with
  | None => RaisedRuntimeError
  | Some (reports, warnings) =>
      let filepath := if output_time then (now +:+ "_" +:+ output)%string
                      else output in
      ToJson filepath reports warnings
  end.

(** ** AdvertiserMessage._apdu_serialization *)

(** What [AdvertiserMessage] keeps in [self.apdu]: the dictionary of nodes
    under ["adv"], and integers or [None] under the other keys. *)
Inductive apdu_value :=
| AdvDict (d : gmap Z node)
| Scalar (v : option Z).

(** What ends up in [self.serialization]: a text, or the object itself. *)
Inductive serialized :=
| SerText (s : string)
| SerObject (v : apdu_value).

(** [needle in hay] on strings: [needle] occurs in [hay]. *)
Fixpoint contains (needle hay : string) : bool :=
  String.prefix needle hay
  || match hay with
     | EmptyString => false
     | String _ hay' => contains needle hay'
     end.

(** [str(l)] for a list of ints. *)
Definition str_int_list (l : list Z) : string :=
  ("[" +:+ String.concat ", " (pretty <$> l) +:+ "]")%string.

(** [sorted(list(d.keys()))]. *)
Definition sorted_keys (d : gmap Z node) : list Z :=
  merge_sort Z.le (map_to_list d).*1.

(** Lines 147-158, the value stored for one field; [None] stands for the
    [AttributeError] of calling [.keys()] on something that is not a
    dictionary. *)
Definition serialize_value (full_adv_serialization : bool) (field : string)
    (v : apdu_value) : option serialized :=
  if contains field "advertisers" && negb full_adv_serialization then
    match v with
    | AdvDict d => Some (SerText (str_int_list (sorted_keys d)))
    | Scalar _ => None
    end
  else Some (SerObject v).

Definition serialize_field (full_adv_serialization : bool) (field : string)
    (v : apdu_value) (serialization : option (gmap string serialized))
  : option (gmap string serialized) :=
  serialization ← serialization;
  s ← serialize_value full_adv_serialization field v;
  Some (<[field := s]> serialization).

(** Lines 143-160. *)
Definition apdu_serialization (apdu : gmap string apdu_value)
    (full_adv_serialization : bool) (index_ : option Z)
    (serialization : gmap string serialized)
  : option (gmap string serialized) :=
  if decide (apdu = ∅) then Some serialization
  else
    serialization ← map_fold (serialize_field full_adv_serialization)
                      (Some serialization) apdu;
    Some (<["index" := SerObject (Scalar index_)]> serialization).

(** The three entries that [__init__] and [decode] put into [self.apdu]. *)
Definition apdu_of (self : AdvertiserMessage) : gmap string apdu_value :=
  {[ "adv" := AdvDict (adv self);
     "adv_type" := Scalar (adv_type self);
     "adv_reserved_field" := Scalar (adv_reserved_field self) ]}.

(** ** MySQL.put_advertiser *)

(** A message as [put_advertiser] reads it: the dictionary it iterates over
    ([message.advertisers]) and, as one value of an arbitrary type [M], the
    other attributes that fill the columns of a row (addresses, endpoints,
    travel time, qos, message type, reserved field, measured time and
    payload). *)
Record stored_message (M : Type) := StoredMessage {
  advertisers : gmap Z node;
  columns : M;
}.
Arguments StoredMessage {M}.
Arguments advertisers {M}.
Arguments columns {M}.

(** One tuple of [values]: the time read from the clock when the tuple is
    built, the columns of the message, the node address and the value. *)
Record advertiser_row (M T : Type) := AdvertiserRow {
  logged_time : T;
  row_columns : M;
  row_node_address : Z;
  row_value : number;
}.
Arguments AdvertiserRow {M T}.
Arguments logged_time {M T}.
Arguments row_columns {M T}.
Arguments row_node_address {M T}.
Arguments row_value {M T}.

(** What [put_advertiser] does to the database. *)
Inductive db_call (M T : Type) :=
| ExecuteMany (values : list (advertiser_row M T))   (* cursor.executemany(query, values) *)
| Commit.                                            (* database.commit() *)
Arguments ExecuteMany {M T}.
Arguments Commit {M T}.

Section PutAdvertiser.
Context {M T : Type}.
(** [datetime.datetime.utcnow().isoformat()] at the [i]-th reading. *)
Variable utcnow : nat -> T.

(** Lines 699-715: [for value in fields["value"]: values.append(...)]. *)
Definition rows_of_node (message : stored_message M)
    (values : list (advertiser_row M T)) (entry : Z * node)
  : list (advertiser_row M T) :=
  foldl (λ values v,
           values ++ [AdvertiserRow (utcnow (length values)) (columns message)
                        entry.1 v])
        values (value entry.2).

(** Lines 695-715: [for node_address, fields in message.advertisers.items()]
    (in the order of the map; the debug log of each node is left out). *)
Definition rows_of_message (values : list (advertiser_row M T))
    (message : stored_message M) : list (advertiser_row M T) :=
  foldl (rows_of_node message) values (map_to_list (advertisers message)).

(** Lines 690-739. *)
Definition put_advertiser (messages : list (stored_message M))
  : list (db_call M T) :=
  let values := foldl rows_of_message [] messages in
  [ExecuteMany values; Commit].

End PutAdvertiser.

(** Number of entries of all the ["value"] lists of a dictionary. *)
Definition value_total (d : gmap Z node) : nat :=
  map_fold (λ _ n acc, (length (value n) + acc)%nat) 0%nat d.

(** The node address and value of a row, without clock and columns. *)
Definition row_key {M T} (r : advertiser_row M T) : Z * number :=
  (row_node_address r, row_value r).

(** Whether a record of raw value [raw] in a frame of type [ty] ends up in
    the ["value"] list (see [route_by_truthiness]). *)
Definition goes_to_value (ty raw : Z) : bool :=
  if ty =? message_type_rss then raw =? 254
  else if ty =? message_type_otap then raw =? 0
  else true.

(** The frames the loop took from the queue, in order. *)
Definition dequeued_frames (es : list event) : list AdvertiserMessage :=
  omap (λ e, match e with Dequeue (Some message) => Some message | _ => None end) es.

(** ** The receive loop of tests/test_advertiser.py *)

(** The two class attributes of [AdvertiserMessage] that the code names:
    [message_counter], which [count] uses, and [MESSAGE_COUNTER], which does
    not exist until something assigns it. *)
Record class_attributes := ClassAttributes {
  attr_message_counter : Z;
  attr_MESSAGE_COUNTER : option Z;
}.

(** [tests/test_advertiser.py], line 114:
    [AdvertiserMessage.MESSAGE_COUNTER = 0]. *)
Definition tests_reset (cls : class_attributes) : class_attributes :=
  {| attr_message_counter := attr_message_counter cls;
     attr_MESSAGE_COUNTER := Some 0 |}.

(** Lines 135-136 for the messages received one after the other: each is
    counted and decoded again; an exception raised by [decode] ends the
    loop. *)
Fixpoint tests_receive_all (cls : class_attributes)
    (messages : list AdvertiserMessage)
  : class_attributes * list (result AdvertiserMessage) :=
  match messages with
  | [] => (cls, [])
  | message :: messages' =>
      let '(counter, r) := count_and_decode (attr_message_counter cls) message in
      let cls := {| attr_message_counter := counter;
                    attr_MESSAGE_COUNTER := attr_MESSAGE_COUNTER cls |} in
      match r with
      | Ok _ =>
          let '(cls, rs) := tests_receive_all cls messages' in
          (cls, r :: rs)
      | Raise _ => (cls, [r])
      end
  end.

(** * Properties *)

(** ** A first run of the decoder *)

Example decode_frame_rss_two :
  let r := (init 0 frame_rss_two 1000).2 in
  lookup_decoded r 1
  = Some {| time := Some 1000; rss := [(-77)%float]; otap := []; value := [] |}
  /\ lookup_decoded r 2
  = Some {| time := Some 1000; rss := []; otap := [];
            value := [PyFloat 0%float] |}.
Proof. vm_compute. split; reflexivity. Qed.

(** ** Facts about the Python fragment *)

Lemma byte_to_int_range b : 0 <= byte_to_int b < 256.
Proof. destruct b; vm_compute; split; congruence. Qed.

Lemma chunker_from_fuel {A} (size : nat) :
  (0 < size)%nat ->
  forall (fuel1 fuel2 : nat) (seq : list A),
    (length seq <= fuel1)%nat -> (length seq <= fuel2)%nat ->
    chunker_from fuel1 seq size = chunker_from fuel2 seq size.
Proof.
  intros Hsize fuel1.
  induction fuel1 as [|fuel1 IH]; intros fuel2 seq H1 H2.
  - destruct seq; [|simpl in H1; lia]. by destruct fuel2.
  - destruct seq as [|x seq]; [by destruct fuel2|].
    destruct fuel2 as [|fuel2]; [simpl in H2; lia|].
    simpl. f_equal.
    destruct size as [|size]; [lia|]. simpl.
    apply IH; rewrite length_drop; simpl in *; lia.
Qed.

Lemma chunker_nil {A} (size : nat) : chunker (@nil A) size = [].
Proof. reflexivity. Qed.

Lemma chunker_app {A} (size : nat) (c rest : list A) :
  (0 < size)%nat -> length c = size ->
  chunker (c ++ rest) size = c :: chunker rest size.
Proof.
  intros Hsize Hc. unfold chunker.
  destruct c as [|x c]; [simpl in Hc; lia|].
  rewrite length_app. simpl length at 1. simpl.
  destruct size as [|size]; [lia|]. simpl in Hc.
  assert (Hlen : length c = size) by lia.
  simpl. rewrite take_app_length' by done.
  rewrite drop_app_length' by done.
  f_equal. apply chunker_from_fuel; lia.
Qed.

Lemma chunker_short {A} (size : nat) (tail : list A) :
  tail ≠ [] -> (length tail <= size)%nat -> chunker tail size = [tail].
Proof.
  intros Hne Hlen. unfold chunker.
  destruct tail as [|x tail]; [done|]. simpl.
  destruct size as [|size]; [simpl in Hlen; lia|]. simpl in *.
  rewrite take_ge by lia. rewrite drop_ge by lia.
  f_equal. by destruct (length tail).
Qed.

Lemma lor_shiftl_add (a b n : Z) :
  0 <= n -> 0 <= a < 2 ^ n -> Z.lor a (Z.shiftl b n) = a + 2 ^ n * b.
Proof.
  intros Hn Ha.
  assert (Hdisjoint : Z.land a (Z.shiftl b n) = 0).
  { apply Z.bits_inj'. intros i Hi.
    rewrite Z.land_spec, Z.bits_0.
    destruct (Z.lt_ge_cases i n) as [Hlow|Hhigh].
    - rewrite Z.shiftl_spec_low by done. apply andb_false_r.
    - rewrite <- (Z.mod_small a (2 ^ n)) by done.
      rewrite Z.mod_pow2_bits_high by lia. reflexivity. }
  pose proof (Z.add_lor_land a (Z.shiftl b n)) as Hadd.
  rewrite Hdisjoint in Hadd. rewrite Z.shiftl_mul_pow2 in Hadd |- * by done. lia.
Qed.

Lemma address_3byte (b0 b1 b2 : byte) :
  Z.lor (Z.lor (byte_to_int b0) (Z.shiftl (byte_to_int b1) 8))
        (Z.shiftl (byte_to_int b2) 16)
  = little_endian [b0; b1; b2].
Proof.
  pose proof (byte_to_int_range b0). pose proof (byte_to_int_range b1).
  pose proof (byte_to_int_range b2).
  rewrite (lor_shiftl_add _ _ 8) by lia.
  rewrite (lor_shiftl_add _ _ 16) by lia.
  unfold little_endian. simpl. lia.
Qed.

Lemma address_4byte (b0 b1 b2 b3 : byte) :
  Z.lor (Z.lor (Z.lor (byte_to_int b0) (Z.shiftl (byte_to_int b1) 8))
               (Z.shiftl (byte_to_int b2) 16))
        (Z.shiftl (byte_to_int b3) 24)
  = little_endian [b0; b1; b2; b3].
Proof.
  pose proof (byte_to_int_range b0). pose proof (byte_to_int_range b1).
  pose proof (byte_to_int_range b2). pose proof (byte_to_int_range b3).
  rewrite (lor_shiftl_add _ _ 8) by lia.
  rewrite (lor_shiftl_add _ _ 16) by lia.
  rewrite (lor_shiftl_add _ _ 24) by lia.
  unfold little_endian. simpl. lia.
Qed.

(** The header byte: the shift of line 96 reads bit 7. *)
Lemma header_shift_bit7 (b0 : byte) :
  (Z.shiftr (byte_to_int b0) 7 =? 1) = Z.testbit (byte_to_int b0) 7.
Proof. destruct b0; reflexivity. Qed.

(** ** The loop body never raises *)

Lemma update_node_Some (f : node -> node) address (d : gmap Z node) n :
  d !! address = Some n -> update_node f address d = Ok (<[address := f n]> d).
Proof. intros H. unfold update_node. by rewrite H. Qed.

Lemma store_ok (ts address raw : Z) (ty : option Z) (d : gmap Z node) :
  store ts address (classify ty raw) d = Ok (put ts ty d (address, raw)).
Proof.
  unfold store, put, file_sample. cbn [fst snd].
  destruct (classify ty raw) as [[rss_ otap_] value_].
  set (d' := match d !! address with
             | Some _ => d
             | None => <[address:=new_node]> d
             end).
  assert (Hd' : d' !! address = Some (default new_node (d !! address))).
  { subst d'. destruct (d !! address) eqn:E; simpl.
    - done.
    - apply lookup_insert_eq. }
  assert (Hins : forall n, <[address:=n]> d' = <[address:=n]> d).
  { intros n. subst d'. destruct (d !! address); [done|].
    apply insert_insert_eq. }
  rewrite (update_node_Some _ _ _ _ Hd'). cbn [mbind result_bind].
  destruct (truthy_float rss_), (truthy_int otap_);
    (erewrite update_node_Some by apply lookup_insert_eq);
    by rewrite insert_insert_eq, Hins.
Qed.

Lemma decode_chunk_short (address_len size : nat) self chunk :
  (length chunk < address_len + 1)%nat ->
  decode_chunk address_len size self chunk = Ok self.
Proof.
  intros H. unfold decode_chunk.
  by rewrite (proj2 (Nat.ltb_lt _ _) H).
Qed.

Lemma decode_chunk_full3 self chunk :
  length chunk = 4%nat ->
  decode_chunk 3 4 self chunk
  = Ok (set_adv (put (timestamp self) (adv_type self) (adv self)
                     (record_of 3 chunk)) self).
Proof.
  intros H.
  destruct chunk as [|b0 [|b1 [|b2 [|b3 [|]]]]]; try discriminate H.
  unfold decode_chunk, record_of. simpl.
  rewrite store_ok. simpl. by rewrite address_3byte.
Qed.

Lemma decode_chunk_full4 self chunk :
  length chunk = 5%nat ->
  decode_chunk 4 5 self chunk
  = Ok (set_adv (put (timestamp self) (adv_type self) (adv self)
                     (record_of 4 chunk)) self).
Proof.
  intros H.
  destruct chunk as [|b0 [|b1 [|b2 [|b3 [|b4 [|]]]]]]; try discriminate H.
  unfold decode_chunk, record_of. simpl.
  rewrite store_ok. simpl. by rewrite address_4byte.
Qed.

(** ** Chunks of the body *)

Lemma chunker_from_length_le {A} (size fuel : nat) (seq : list A) :
  Forall (λ c, (length c <= size)%nat) (chunker_from fuel seq size).
Proof.
  revert seq. induction fuel as [|fuel IH]; intros seq; simpl.
  - by destruct seq.
  - destruct seq as [|x seq]; [done|].
    constructor; [|apply IH]. rewrite length_take. lia.
Qed.

Lemma full_chunks_app (width : nat) (c rest : list byte) :
  length c = S width ->
  full_chunks width (c ++ rest) = c :: full_chunks width rest.
Proof.
  intros Hc. unfold full_chunks.
  rewrite chunker_app by (done || lia).
  by rewrite filter_cons_True.
Qed.

Lemma full_chunks_short (width : nat) (tail : list byte) :
  (length tail < S width)%nat -> full_chunks width tail = [].
Proof.
  intros Hlen. unfold full_chunks.
  destruct tail as [|b tail]; [done|].
  rewrite chunker_short by (done || lia).
  rewrite filter_cons_False by lia. done.
Qed.

(** A body of [k] full chunks and a short tail has exactly [k] records, the
    ones of the body without its tail. *)
Lemma full_chunks_split (width k : nat) (body : list byte) :
  (k * S width <= length body < S k * S width)%nat ->
  length (full_chunks width body) = k
  /\ full_chunks width (take (k * S width) body) = full_chunks width body.
Proof.
  revert body. induction k as [|k IH]; intros body Hlen.
  - simpl. rewrite take_0. rewrite full_chunks_short by lia. done.
  - assert (Hbody : body = take (S width) body ++ drop (S width) body)
      by (symmetry; apply take_drop).
    assert (Hc : length (take (S width) body) = S width)
      by (rewrite length_take; lia).
    destruct (IH (drop (S width) body)) as [IHlen IHtake].
    { rewrite length_drop. lia. }
    revert Hbody Hc IHlen IHtake.
    generalize (take (S width) body) (drop (S width) body).
    intros c rest -> Hc IHlen IHtake.
    rewrite full_chunks_app by done. split.
    + simpl. by rewrite IHlen.
    + replace (S k * S width)%nat with (S width + k * S width)%nat by lia.
      rewrite take_app_add' by done.
      rewrite full_chunks_app by done. by rewrite IHtake.
Qed.

(** ** The whole loop, and [decode] on a well-formed header *)

Lemma decode_chunk_ok (address_len size : nat) self chunk :
  wire_format address_len size -> (length chunk <= size)%nat ->
  decode_chunk address_len size self chunk
  = Ok (if decide (length chunk = S address_len)
        then set_adv (put (timestamp self) (adv_type self) (adv self)
                          (record_of address_len chunk)) self
        else self).
Proof.
  intros [[-> ->]|[-> ->]] Hlen; case_decide.
  - by apply decode_chunk_full3.
  - apply decode_chunk_short. lia.
  - by apply decode_chunk_full4.
  - apply decode_chunk_short. lia.
Qed.

Lemma for_each_chunks (address_len size : nat) (chunks : list (list byte)) :
  wire_format address_len size ->
  Forall (λ c, (length c <= size)%nat) chunks ->
  forall self,
    for_each (decode_chunk address_len size) self chunks
    = Ok (set_adv
            (foldl (put (timestamp self) (adv_type self)) (adv self)
               (record_of address_len
                  <$> filter (λ c, length c = S address_len) chunks))
            self).
Proof.
  intros Hwf Hall. induction Hall as [|c chunks Hc _ IH]; intros self.
  - by destruct self.
  - simpl. rewrite decode_chunk_ok by done. cbn [mbind result_bind].
    rewrite IH. case_decide.
    + by rewrite filter_cons_True.
    + by rewrite filter_cons_False.
Qed.

Lemma decode_payload self (b0 b1 : byte) (body : list byte) :
  data_payload self = b0 :: b1 :: body ->
  decode self
  = Ok (set_adv
          (foldl (put (timestamp self) (Some (frame_type b0))) (adv self)
             (records (address_width b0) body))
          (set_header (frame_type b0) (byte_to_int b1) self)).
Proof.
  intros Hpayload. unfold decode, generic_decode. cbn [mbind result_bind].
  rewrite Hpayload.
  change (slice 0 2 (b0 :: b1 :: body)) with [b0; b1].
  change (unpack 2 [b0; b1]) with (Ok [byte_to_int b0; byte_to_int b1]).
  cbn [getitem lookup list_lookup mbind result_bind].
  rewrite header_shift_bit7. unfold records, full_chunks, address_width.
  destruct (Z.testbit (byte_to_int b0) 7);
    (rewrite for_each_chunks;
     [ | unfold wire_format; auto | apply chunker_from_length_le ]);
    cbn [set_header slice_from data_payload timestamp adv adv_type];
    by rewrite Hpayload.
Qed.

Lemma decode_short_buffer self :
  (length (data_payload self) < 2)%nat -> decode self = Raise StructError.
Proof.
  intros Hlen. unfold decode, generic_decode. cbn [mbind result_bind].
  destruct (data_payload self) as [|b0 [|b1 body]]; [done|done|].
  simpl in Hlen. lia.
Qed.

(** ** What one record does to the dictionary *)

Lemma file_sample_count sample n :
  sample_count (file_sample sample n) = S (sample_count n).
Proof.
  destruct sample as [[rss_ otap_] value_]. unfold file_sample, sample_count.
  destruct (truthy_float rss_), (truthy_int otap_); simpl;
    rewrite length_app; simpl; lia.
Qed.

Lemma file_sample_time sample n : time (file_sample sample n) = time n.
Proof.
  destruct sample as [[rss_ otap_] value_]. unfold file_sample.
  by destruct (truthy_float rss_), (truthy_int otap_).
Qed.

Lemma file_sample_prefix sample n :
  rss n `prefix_of` rss (file_sample sample n)
  /\ otap n `prefix_of` otap (file_sample sample n)
  /\ value n `prefix_of` value (file_sample sample n).
Proof.
  destruct sample as [[rss_ otap_] value_]. unfold file_sample.
  destruct (truthy_float rss_), (truthy_int otap_); simpl;
    repeat split; (done || by apply prefix_app_r).
Qed.

Lemma put_lookup ts ty (d : gmap Z node) (r : Z * Z) (a : Z) :
  put ts ty d r !! a
  = if decide (r.1 = a)
    then Some (file_sample (classify ty r.2)
                 (set_time ts (default new_node (d !! a))))
    else d !! a.
Proof.
  unfold put. rewrite lookup_insert. by case_decide; subst.
Qed.

Lemma total_samples_insert (d : gmap Z node) (a : Z) (n : node) :
  (total_samples (<[a := n]> d) + node_samples d a
   = total_samples d + sample_count n)%nat.
Proof.
  unfold total_samples, node_samples.
  destruct (d !! a) as [old|] eqn:E; simpl.
  - rewrite <- insert_delete_eq.
    rewrite map_fold_insert_L; [|intros; lia|apply lookup_delete_eq].
    rewrite (map_fold_delete_L _ _ a old d); [lia|intros; lia|done].
  - rewrite map_fold_insert_L; [lia|intros; lia|done].
Qed.

Lemma put_total ts ty (d : gmap Z node) (r : Z * Z) :
  total_samples (put ts ty d r) = S (total_samples d).
Proof.
  unfold put.
  pose proof (total_samples_insert d r.1
    (file_sample (classify ty r.2)
       (set_time ts (default new_node (d !! r.1))))) as H.
  rewrite file_sample_count in H. unfold node_samples in H.
  destruct (d !! r.1) as [old|]; simpl in H; unfold sample_count in *;
    simpl in *; lia.
Qed.

Lemma put_node_samples ts ty (d : gmap Z node) (r : Z * Z) (a : Z) :
  node_samples (put ts ty d r) a
  = (node_samples d a + if decide (r.1 = a) then 1 else 0)%nat.
Proof.
  unfold node_samples. rewrite put_lookup. case_decide.
  - simpl. rewrite file_sample_count.
    destruct (d !! a); unfold sample_count; simpl; lia.
  - lia.
Qed.

Lemma foldl_put_total ts ty (rs : list (Z * Z)) (d : gmap Z node) :
  total_samples (foldl (put ts ty) d rs) = (total_samples d + length rs)%nat.
Proof.
  revert d. induction rs as [|r rs IH]; intros d; simpl.
  - lia.
  - rewrite IH, put_total. lia.
Qed.

Lemma foldl_put_node_samples ts ty (rs : list (Z * Z)) (d : gmap Z node) a :
  node_samples (foldl (put ts ty) d rs) a
  = (node_samples d a + records_for a rs)%nat.
Proof.
  unfold records_for. revert d. induction rs as [|r rs IH]; intros d; simpl.
  - lia.
  - rewrite IH, put_node_samples. case_decide.
    + rewrite filter_cons_True by done. simpl. lia.
    + rewrite filter_cons_False by done. lia.
Qed.

(** ** The decoded RSS value *)

(** [raw / 2 - 127] is computed without rounding for every byte. *)
Lemma rss_exact (b : byte) :
  twice (fsub_int (truediv (byte_to_int b) 2) 127) = Some (byte_to_int b - 2 * 127).
Proof. destruct b; vm_compute; reflexivity. Qed.

Lemma rss_truthy (b : byte) :
  truthy_float (Some (fsub_int (truediv (byte_to_int b) 2) 127))
  = negb (byte_to_int b =? 254).
Proof. destruct b; vm_compute; reflexivity. Qed.

Lemma rss_254 : fsub_int (truediv 254 2) 127 = 0%float.
Proof. reflexivity. Qed.

(** ** Trailing bytes, header and addresses *)

(** C1. A body of [k] full chunks of [address_width + 1] bytes followed by a
    shorter trailing chunk decodes without error; exactly [k] samples are
    appended over all the per-address lists, and the outcome is the one of
    the frame with the trailing bytes cut off. *)
Theorem decode_drops_trailing_chunk
    (self : AdvertiserMessage) (b0 b1 : byte) (body : list byte) (k : nat) :
  data_payload self = b0 :: b1 :: body ->
  (k * (address_width b0 + 1) <= length body < (k + 1) * (address_width b0 + 1))%nat ->
  exists self',
    decode self = Ok self'
    /\ total_samples (adv self') = (total_samples (adv self) + k)%nat
    /\ decode (set_payload (b0 :: b1 :: take (k * (address_width b0 + 1)) body) self)
       = Ok (set_payload (b0 :: b1 :: take (k * (address_width b0 + 1)) body) self').
Proof.
  intros Hpayload Hlen.
  replace (address_width b0 + 1)%nat with (S (address_width b0)) in * by lia.
  replace (k + 1)%nat with (S k) in Hlen by lia.
  destruct (full_chunks_split _ _ _ Hlen) as [Hk Htake].
  eexists. split; [by apply decode_payload|]. split.
  - cbn [adv set_adv set_header]. rewrite foldl_put_total.
    unfold records. by rewrite length_fmap, Hk.
  - erewrite decode_payload by reflexivity.
    unfold records. rewrite Htake. reflexivity.
Qed.

Lemma decode_drops_trailing_chunk_witness :
  exists self',
    decode (Message frame_otap_tail 7 ∅ None None None) = Ok self'
    /\ total_samples (adv self') = (total_samples ∅ + 2)%nat
    /\ decode (set_payload (x83 :: x00 :: take (2 * (address_width x83 + 1))
                                          (drop 2 frame_otap_tail))
                 (Message frame_otap_tail 7 ∅ None None None))
       = Ok (set_payload (x83 :: x00 :: take (2 * (address_width x83 + 1))
                                          (drop 2 frame_otap_tail)) self').
Proof.
  apply (decode_drops_trailing_chunk
           (Message frame_otap_tail 7 ∅ None None None) x83 x00
           (drop 2 frame_otap_tail) 2).
  - reflexivity.
  - vm_compute. lia.
Defined.

(** C5. For a buffer of at least two bytes [decode] stores
    [buffer[0] & 0x7F] as the type and the second byte as the reserved field;
    the address width is 4 when bit 7 of [buffer[0]] is set and 3 otherwise,
    and with this one width every full chunk of the body yields a record
    whose address is the little-endian value of its address bytes. *)
Theorem decode_header_and_addresses
    (self : AdvertiserMessage) (b0 b1 : byte) (body : list byte) :
  data_payload self = b0 :: b1 :: body ->
  let width := if Z.testbit (byte_to_int b0) 7 then 4%nat else 3%nat in
  exists self',
    decode self = Ok self'
    /\ adv_type self' = Some (Z.land (byte_to_int b0) 0x7F)
    /\ adv_reserved_field self' = Some (byte_to_int b1)
    /\ adv self'
       = foldl (put (timestamp self) (adv_type self')) (adv self)
           ((λ chunk, (little_endian (take width chunk),
                       byte_to_int (default x00 (last chunk))))
              <$> filter (λ chunk, length chunk = S width)
                    (chunker body (S width)))
    /\ (forall a0 a1 a2 a3 : byte,
          little_endian [a0; a1; a2]
          = byte_to_int a0 + 2 ^ 8 * byte_to_int a1 + 2 ^ 16 * byte_to_int a2
          /\ little_endian [a0; a1; a2; a3]
             = byte_to_int a0 + 2 ^ 8 * byte_to_int a1
               + 2 ^ 16 * byte_to_int a2 + 2 ^ 24 * byte_to_int a3).
Proof.
  intros Hpayload width.
  eexists. split; [by apply decode_payload|].
  repeat split; unfold little_endian; simpl; lia.
Qed.

Lemma decode_header_and_addresses_witness :
  exists self',
    decode (Message frame_otap_tail 7 ∅ None None None) = Ok self'
    /\ adv_type self' = Some 3
    /\ adv self' !! 0x04030201 = Some (Node (Some 7) [] [5] [])
    /\ adv self' !! 0x0d0c0b0a = Some (Node (Some 7) [] [6] []).
Proof.
  destruct (decode_header_and_addresses
              (Message frame_otap_tail 7 ∅ None None None) x83 x00
              (drop 2 frame_otap_tail) eq_refl)
    as (self' & Hdecode & Hty & _ & Hadv & _).
  exists self'. split; [exact Hdecode|]. split; [exact Hty|].
  rewrite Hadv, Hty. split; vm_compute; reflexivity.
Defined.

(** ** Short buffers *)

(** C3 (as amended). A buffer shorter than two bytes makes [decode] raise
    [struct.error]; nothing catches it, so the constructor fails with it too
    (after the message has been counted).  A buffer of two bytes or more is
    decoded without any error. *)
Theorem decode_header_error (self : AdvertiserMessage) :
  ((length (data_payload self) < 2)%nat ->
     decode self = Raise StructError
     /\ class_name StructError = "struct.error"
     /\ forall counter,
          init counter (data_payload self) (timestamp self)
          = (counter + 1, Raise StructError))
  /\ ((2 <= length (data_payload self))%nat ->
        exists self', decode self = Ok self').
Proof.
  split.
  - intros Hlen. split; [by apply decode_short_buffer|]. split; [done|].
    intros counter. unfold init, count. f_equal.
    by apply decode_short_buffer.
  - intros Hlen. destruct (data_payload self) as [|b0 [|b1 body]] eqn:E;
      [simpl in Hlen; lia|simpl in Hlen; lia|].
    eexists. by apply decode_payload.
Qed.

Lemma decode_header_error_witness :
  (decode (Message [x02] 5 ∅ None None None) = Raise StructError
   /\ class_name StructError = "struct.error"
   /\ forall counter, init counter [x02] 5 = (counter + 1, Raise StructError))
  /\ exists self', decode (Message [x02; x00] 5 ∅ None None None) = Ok self'.
Proof.
  split.
  - apply (decode_header_error (Message [x02] 5 ∅ None None None)).
    simpl. lia.
  - apply (decode_header_error (Message [x02; x00] 5 ∅ None None None)).
    simpl. lia.
Defined.

(** C3 (as stated) fails: on a one-byte buffer the exception raised is not a
    [DecodeError]. *)
Lemma decode_short_buffer_not_DecodeError :
  ~ (exists e, decode (Message [x02] 5 ∅ None None None) = Raise e
               /\ class_name e = "DecodeError").
Proof.
  intros (e & Hraise & Hname).
  assert (He : e = StructError) by (vm_compute in Hraise; congruence).
  subst e. discriminate Hname.
Qed.

(** ** Routing of samples *)

(** C4. An RSS frame (type 2) with one record for address 1 and raw value
    254: the decoded sample [0.0] ends up in the ["value"] list of the node,
    and its ["rss"] list stays empty. *)
Theorem decode_rss_254_not_in_rss_list :
  exists self',
    decode (Message [x02; x00; x01; x00; x00; xfe] 5 ∅ None None None) = Ok self'
    /\ adv self' !! 1 = Some (Node (Some 5) [] [] [PyFloat 0%float]).
Proof. eexists. split; vm_compute; reflexivity. Qed.

(** C2. An OTAP frame (type 3) with a record of raw value 5 for address 1
    and a record of raw value 0 for address 2: the first is filed as an OTAP
    sample, the second in the ["value"] list, so the records of one frame
    are not all filed under the kind of the frame. *)
Theorem decode_otap_frame_mixed_kinds :
  exists self',
    decode (Message [x03; x00; x01; x00; x00; x05; x02; x00; x00; x00]
              5 ∅ None None None) = Ok self'
    /\ adv self' !! 1 = Some (Node (Some 5) [] [5] [])
    /\ adv self' !! 2 = Some (Node (Some 5) [] [] [PyInt 0]).
Proof. eexists. repeat split; vm_compute; reflexivity. Qed.

Lemma file_sample_route (ty : Z) (b : byte) (n : node) :
  file_sample (classify (Some ty) (byte_to_int b)) n
  = route_by_truthiness ty (byte_to_int b) n.
Proof.
  unfold classify, route_by_truthiness, file_sample.
  destruct (ty =? message_type_rss) eqn:Hrss.
  - apply Z.eqb_eq in Hrss. subst ty.
    rewrite bool_decide_eq_true_2 by done.
    rewrite rss_truthy.
    destruct (byte_to_int b =? 254) eqn:E; simpl; [|done].
    apply Z.eqb_eq in E. by rewrite E.
  - apply Z.eqb_neq in Hrss.
    rewrite bool_decide_eq_false_2 by congruence.
    destruct (ty =? message_type_otap) eqn:Hotap.
    + apply Z.eqb_eq in Hotap. subst ty.
      rewrite bool_decide_eq_true_2 by done. simpl.
      destruct (byte_to_int b =? 0) eqn:E; simpl; [|done].
      apply Z.eqb_eq in E. by rewrite E.
    + apply Z.eqb_neq in Hotap.
      rewrite bool_decide_eq_false_2 by congruence. done.
Qed.

Lemma foldl_put_route ts ty width (chunks : list (list byte)) (d : gmap Z node) :
  foldl (put ts (Some ty)) d (record_of width <$> chunks)
  = foldl (λ d r, <[r.1 := route_by_truthiness ty r.2
                             (set_time ts (default new_node (d !! r.1)))]> d)
      d (record_of width <$> chunks).
Proof.
  revert d. induction chunks as [|c chunks IH]; intros d; [done|].
  rewrite fmap_cons. cbn [foldl]. rewrite <- IH. f_equal.
  unfold put, record_of. cbn [fst snd]. by rewrite file_sample_route.
Qed.

(** C9. The list a sample goes to is chosen by the truth value of the
    decoded value: in an RSS frame a raw byte 254 (rss 0.0) is appended to
    the ["value"] list and any other raw byte to the ["rss"] list; in an OTAP
    frame a raw byte 0 is appended to the ["value"] list and any other to the
    ["otap"] list; in every other frame the raw byte goes to ["value"].  The
    decoded rss is zero for the raw byte 254 only. *)
Theorem decode_routes_by_truthiness
    (self : AdvertiserMessage) (b0 b1 : byte) (body : list byte) :
  data_payload self = b0 :: b1 :: body ->
  exists self',
    decode self = Ok self'
    /\ adv self'
       = foldl (λ d r, <[r.1 := route_by_truthiness (frame_type b0) r.2
                                  (set_time (timestamp self)
                                     (default new_node (d !! r.1)))]> d)
           (adv self) (records (address_width b0) body)
    /\ (forall raw : byte,
          PrimFloat.eqb (fsub_int (truediv (byte_to_int raw) 2) 127) 0%float
          = (byte_to_int raw =? 254)).
Proof.
  intros Hpayload. eexists. split; [by apply decode_payload|]. split.
  - cbn [adv set_adv]. apply foldl_put_route.
  - intros raw. pose proof (rss_truthy raw) as H. cbn [truthy_float] in H.
    by destruct (PrimFloat.eqb _ _), (byte_to_int raw =? 254).
Qed.

Lemma decode_routes_by_truthiness_witness :
  exists self',
    decode (Message [x02; x00; x01; x00; x00; xfe; x01; x00; x00; x64]
              5 ∅ None None None) = Ok self'
    /\ adv self' !! 1 = Some (Node (Some 5) [(-77)%float] [] [PyFloat 0%float]).
Proof.
  destruct (decode_routes_by_truthiness
              (Message [x02; x00; x01; x00; x00; xfe; x01; x00; x00; x64]
                 5 ∅ None None None)
              x02 x00 [x01; x00; x00; xfe; x01; x00; x00; x64] eq_refl)
    as (self' & Hdecode & Hadv & _).
  exists self'. split; [exact Hdecode|].
  rewrite Hadv. vm_compute. reflexivity.
Defined.

(** ** Append-only lists and the time of the last record *)

Lemma extends_refl n : extends n n.
Proof. by repeat split. Qed.

Lemma extends_trans n1 n2 n3 : extends n1 n2 -> extends n2 n3 -> extends n1 n3.
Proof.
  intros (?&?&?) (?&?&?). repeat split; by etrans.
Qed.

Lemma put_extends ts ty (d : gmap Z node) r a n :
  d !! a = Some n ->
  exists n', put ts ty d r !! a = Some n' /\ extends n n'.
Proof.
  intros Hn. rewrite put_lookup. case_decide.
  - eexists. split; [done|]. rewrite Hn. simpl.
    apply (file_sample_prefix _ (set_time ts n)).
  - exists n. split; [done|apply extends_refl].
Qed.

Lemma foldl_put_extends ts ty (rs : list (Z * Z)) (d : gmap Z node) a n :
  d !! a = Some n ->
  exists n', foldl (put ts ty) d rs !! a = Some n' /\ extends n n'.
Proof.
  revert d n. induction rs as [|r rs IH]; intros d n Hn; simpl.
  - exists n. split; [done|apply extends_refl].
  - destruct (put_extends ts ty d r a n Hn) as (n1 & Hn1 & Hext1).
    destruct (IH _ _ Hn1) as (n2 & Hn2 & Hext2).
    exists n2. split; [done|]. by eapply extends_trans.
Qed.

Lemma foldl_put_time ts ty (rs : list (Z * Z)) (d : gmap Z node) a :
  a ∈ rs.*1 ->
  exists n', foldl (put ts ty) d rs !! a = Some n' /\ time n' = Some ts.
Proof.
  induction rs as [|r rs IH] using rev_ind; intros Hin.
  - by apply elem_of_nil in Hin.
  - rewrite foldl_snoc, put_lookup. case_decide.
    + eexists. split; [done|]. by rewrite file_sample_time.
    + apply IH. rewrite fmap_app in Hin.
      apply elem_of_app in Hin as [Hin|Hin]; [done|].
      apply list_elem_of_singleton in Hin. simpl in Hin. congruence.
Qed.

(** C6. Decoding a frame never removes or replaces a stored sample: every
    node known before is still there with its three lists extended at the
    end.  Every address that has a record in the frame ends up with the
    frame's timestamp as its time, whatever the type of the frame, and each
    record adds one sample to the node of its address, also when several
    records carry the same address. *)
Theorem decode_append_only_last_seen
    (self : AdvertiserMessage) (b0 b1 : byte) (body : list byte) :
  data_payload self = b0 :: b1 :: body ->
  exists self',
    decode self = Ok self'
    /\ (forall a n, adv self !! a = Some n ->
          exists n', adv self' !! a = Some n'
                     /\ rss n `prefix_of` rss n'
                     /\ otap n `prefix_of` otap n'
                     /\ value n `prefix_of` value n')
    /\ (forall a, a ∈ (records (address_width b0) body).*1 ->
          exists n', adv self' !! a = Some n'
                     /\ time n' = Some (timestamp self))
    /\ (forall a,
          node_samples (adv self') a
          = (node_samples (adv self) a
             + records_for a (records (address_width b0) body))%nat).
Proof.
  intros Hpayload. eexists. split; [by apply decode_payload|].
  cbn [adv set_adv set_header]. repeat split.
  - intros a n Hn. by apply foldl_put_extends.
  - intros a Ha. by apply foldl_put_time.
  - intros a. apply foldl_put_node_samples.
Qed.

Lemma decode_append_only_last_seen_witness :
  exists self',
    decode (Message frame_rss_repeat 9
              {[ 7 := Node (Some 1) [1%float] [] [] ]} None None None)
    = Ok self'
    /\ adv self' !! 7
       = Some (Node (Some 9) [1%float; (-77)%float; (-76)%float] []
                 [PyFloat 0%float]).
Proof.
  destruct (decode_append_only_last_seen
              (Message frame_rss_repeat 9
                 {[ 7 := Node (Some 1) [1%float] [] [] ]} None None None)
              x02 x00 (drop 2 frame_rss_repeat) eq_refl)
    as (self' & Hdecode & _).
  exists self'. split; [exact Hdecode|].
  vm_compute in Hdecode. injection Hdecode as <-. vm_compute. reflexivity.
Defined.

(** ** Decoding the same message again *)

Lemma decode_again_samples (n : nat) :
  forall (self : AdvertiserMessage) (b0 b1 : byte) (body : list byte),
    data_payload self = b0 :: b1 :: body ->
    exists self',
      decode_again n self = Ok self'
      /\ data_payload self' = data_payload self
      /\ (forall a,
            node_samples (adv self') a
            = (node_samples (adv self) a
               + n * records_for a (records (address_width b0) body))%nat)
      /\ total_samples (adv self')
         = (total_samples (adv self)
            + n * length (records (address_width b0) body))%nat.
Proof.
  induction n as [|n IH]; intros self b0 b1 body Hpayload.
  - exists self. repeat split; simpl; lia.
  - simpl. rewrite (decode_payload _ _ _ _ Hpayload). cbn [mbind result_bind].
    set (self1 := set_adv _ _).
    destruct (IH self1 b0 b1 body Hpayload)
      as (self' & Hagain & Hdata & Hnode & Htotal).
    exists self'. split; [exact Hagain|]. split; [by rewrite Hdata|].
    subst self1. cbn [adv set_adv set_header] in Hnode, Htotal. split.
    + intros a. rewrite Hnode, foldl_put_node_samples. lia.
    + rewrite Htotal, foldl_put_total. lia.
Qed.

(** C10. [decode] accumulates.  The constructor decodes the payload once, and
    each of [n] further calls appends the samples of every full chunk once
    more: afterwards a node holds [n + 1] samples for each record that
    carries its address, and the dictionary [n + 1] samples per full chunk.
    The receive loop of [tests/test_advertiser.py], which decodes again a
    message already built, thus leaves two samples per record. *)
Theorem decode_accumulates
    (counter ts : Z) (b0 b1 : byte) (body : list byte) (n : nat) :
  let rs := records (address_width b0) body in
  exists self1 selfn self2,
    init counter (b0 :: b1 :: body) ts = (counter + 1, Ok self1)
    /\ (forall a, node_samples (adv self1) a = records_for a rs)
    /\ decode_again n self1 = Ok selfn
    /\ (forall a, node_samples (adv selfn) a = (S n * records_for a rs)%nat)
    /\ total_samples (adv selfn) = (S n * length rs)%nat
    /\ count_and_decode (counter + 1) self1 = (counter + 1 + 1, Ok self2)
    /\ (forall a, node_samples (adv self2) a = (2 * records_for a rs)%nat).
Proof.
  intros rs. unfold init, count_and_decode, count.
  set (self0 := set_index (counter + 1)
                  (Message (b0 :: b1 :: body) ts ∅ None None None)).
  pose proof (decode_payload self0 b0 b1 body eq_refl) as Hfirst.
  set (self1 := set_adv _ _) in Hfirst.
  assert (Hnode1 : forall a, node_samples (adv self1) a = records_for a rs).
  { intros a. subst self1. cbn [adv set_adv]. by rewrite foldl_put_node_samples. }
  assert (Htotal1 : total_samples (adv self1) = length rs).
  { subst self1. cbn [adv set_adv]. rewrite foldl_put_total.
    by unfold total_samples; simpl; rewrite map_fold_empty. }
  destruct (decode_again_samples n self1 b0 b1 body eq_refl)
    as (selfn & Hagain & _ & Hnoden & Htotaln).
  pose proof (decode_payload (set_index (counter + 1 + 1) self1) b0 b1 body
                eq_refl) as Hsecond.
  set (self2 := set_adv _ _) in Hsecond.
  exists self1, selfn, self2.
  split; [by rewrite Hfirst|]. split; [exact Hnode1|].
  split; [exact Hagain|]. split.
  { intros a. rewrite Hnoden, Hnode1. fold rs. lia. }
  split; [rewrite Htotaln, Htotal1; fold rs; lia|].
  split; [by rewrite Hsecond|].
  intros a. subst self2. cbn [adv set_adv set_header set_index].
  rewrite foldl_put_node_samples, Hnode1. fold rs. lia.
Qed.

(** ** The sequencer *)

Lemma decode_index self self' : decode self = Ok self' -> index self' = index self.
Proof.
  intros Hdecode.
  destruct (data_payload self) as [|b0 [|b1 body]] eqn:E.
  - rewrite decode_short_buffer in Hdecode by (rewrite E; simpl; lia). done.
  - rewrite decode_short_buffer in Hdecode by (rewrite E; simpl; lia). done.
  - rewrite (decode_payload _ _ _ _ E) in Hdecode. by injection Hdecode as <-.
Qed.

Lemma init_index counter payload ts :
  (init counter payload ts).1 = counter + 1
  /\ forall m, (init counter payload ts).2 = Ok m -> index m = Some (counter + 1).
Proof.
  unfold init, count. cbn [fst snd]. split; [done|].
  intros m Hm. by rewrite (decode_index _ _ Hm).
Qed.

Lemma construct_all_index (frames : list (list byte * Z)) :
  forall counter,
    (construct_all counter frames).1 = counter + Z.of_nat (length frames)
    /\ forall (i : nat) m,
         (construct_all counter frames).2 !! i = Some (Ok m) ->
         index m = Some (counter + Z.of_nat i + 1).
Proof.
  induction frames as [|frame frames IH]; intros counter.
  - simpl. split; [lia|]. intros i m Hi. done.
  - cbn [construct_all length].
    destruct (init_index counter frame.1 frame.2) as [Hc Hm].
    destruct (init counter frame.1 frame.2) as [c r].
    cbn [fst snd] in Hc, Hm. subst c.
    destruct (IH (counter + 1)) as [IHc IHm].
    destruct (construct_all (counter + 1) frames) as [c rs].
    cbn [fst snd] in *.
    split; [lia|]. intros [|i] m Hi; simpl in Hi.
    + injection Hi as ->. rewrite (Hm m eq_refl). f_equal. lia.
    + rewrite (IHm i m Hi). f_equal. lia.
Qed.

(** C7. [count] adds exactly one to the shared counter and gives the message
    the new value as its index.  [test_inventory] starts a run by setting
    the counter to 0 whatever it was, and the loop leaves it alone; the
    [i]-th message constructed from then on (counting from 1) has index [i],
    so the indexes increase by one from message to message. *)
Theorem sequencer_counts_from_reset {I : Type} `{InventoryOps I}
    (previous : Z) (m : manager I) (envs : list answers)
    (frames : list (list byte * Z)) :
  (forall counter self,
     (count counter self).1 = counter + 1
     /\ index (count counter self).2 = Some (counter + 1))
  /\ (test_inventory previous m envs).1 = 0
  /\ let built := construct_all (test_inventory previous m envs).1 frames in
     built.1 = Z.of_nat (length frames)
     /\ forall (i : nat) message,
          built.2 !! i = Some (Ok message) ->
          index message = Some (Z.of_nat i + 1).
Proof.
  split; [done|]. split; [done|].
  change (test_inventory previous m envs).1 with 0.
  destruct (construct_all_index frames 0) as [Hc Hm]. split; [lia|].
  intros i message Hi. rewrite (Hm i message Hi). f_equal.
Qed.

Lemma sequencer_counts_from_reset_witness :
  exists message,
    (construct_all
       (test_inventory 41 (Manager empty_inventory false 3 []) []).1
       [([x02; x00], 10); ([x02], 11); (frame_rss_two, 12)]).2 !! 2%nat
    = Some (Ok message)
    /\ index message = Some 3.
Proof.
  pose proof (sequencer_counts_from_reset 41
                (Manager empty_inventory false 3 []) []
                [([x02; x00], 10); ([x02], 11); (frame_rss_two, 12)])
    as (_ & _ & _ & Hindex).
  eexists. split; [vm_compute; reflexivity|].
  apply (Hindex 2%nat). vm_compute. reflexivity.
Defined.

(** ** The ingestion loop *)

Lemma polls_snoc es e : polls (es ++ [e]) = (polls es + if is_poll e then 1 else 0)%nat.
Proof.
  unfold polls. rewrite List.filter_app, length_app. simpl.
  by destruct (is_poll e).
Qed.

Lemma dequeues_snoc es e :
  dequeues (es ++ [e]) = (dequeues es + if is_dequeue e then 1 else 0)%nat.
Proof.
  unfold dequeues. rewrite List.filter_app, length_app. simpl.
  by destruct (is_dequeue e).
Qed.

Section IngestionFacts.
Context {I : Type} `{InventoryOps I}.

Lemma iteration_polls (m : manager I) (env : answers) :
  polls (events (iteration m env).2) = S (polls (events m)).
Proof.
  unfold iteration.
  repeat match goal with
         | |- context [if ?b then _ else _] => destruct b
         | |- context [match rx_get ?e with _ => _ end] => destruct (rx_get e)
         end;
    cbn [snd events emit set_empty_counter set_inventory];
    rewrite ?polls_snoc; simpl; lia.
Qed.

Lemma iteration_cancelled (m : manager I) (env : answers) :
  exit_is_set env = true ->
  iteration m env = (Leave Cancelled, emit (PollExit true) m).
Proof. intros Hset. unfold iteration. by rewrite Hset. Qed.

Lemma iteration_empty (m : manager I) (env : answers) :
  exit_is_set env = false -> rx_get env = None ->
  (iteration m env).1 = (if out_of_time env then Leave TimedOut else Continue)
  /\ inventory (iteration m env).2 = inventory m.
Proof.
  intros Hset Hget. unfold iteration. rewrite Hset, Hget.
  destruct (out_of_time env); split; try done;
    cbn [snd]; by destruct (10 <? _).
Qed.

Lemma run_app (envs rest : list answers) :
  forall (m m' : manager I),
    run m envs = (None, m') -> run m (envs ++ rest) = run m' rest.
Proof.
  induction envs as [|env envs IH]; intros m m' Hrun; simpl in *.
  - by injection Hrun as ->.
  - destruct (iteration m env) as [[|why] m1]; [by apply IH|done].
Qed.

Lemma run_polls (envs : list answers) :
  forall (m m' : manager I),
    run m envs = (None, m') ->
    polls (events m') = (polls (events m) + length envs)%nat.
Proof.
  induction envs as [|env envs IH]; intros m m' Hrun; simpl in *.
  - injection Hrun as ->. lia.
  - pose proof (iteration_polls m env) as Hpoll.
    destruct (iteration m env) as [[|why] m1]; [|done].
    rewrite (IH _ _ Hrun). simpl in Hpoll. lia.
Qed.

Lemma run_empty_queue (envs : list answers) :
  Forall (λ env, exit_is_set env = false /\ rx_get env = None
                 /\ out_of_time env = false) envs ->
  forall m : manager I,
    exists m', run m envs = (None, m') /\ inventory m' = inventory m.
Proof.
  induction 1 as [|env envs (Hset & Hget & Htime) _ IH]; intros m; simpl.
  - by exists m.
  - destruct (iteration_empty m env Hset Hget) as [Hctl Hinv].
    rewrite Htime in Hctl.
    destruct (iteration m env) as [ctl m1]. simpl in Hctl, Hinv. subst ctl.
    destruct (IH m1) as (m' & Hrun & Hinv'). exists m'. split; [done|congruence].
Qed.

End IngestionFacts.

(** C8. A pass of the loop that finds the queue empty ends the loop exactly
    when [is_out_of_time()] answers true and otherwise goes on, without
    touching the inventory; any number of such passes before the deadline
    leaves the loop running.  Every pass polls the exit signal once.  When
    the signal is found set the loop is left at once: the queue is not read
    and nothing is added, whatever is still queued. *)
Theorem ingestion_loop_timeout_and_cancel {I : Type} `{InventoryOps I}
    (m : manager I) :
  (forall deadline qsize,
     let pass := iteration m (Answers false None deadline qsize) in
     pass.1 = (if deadline then Leave TimedOut else Continue)
     /\ inventory pass.2 = inventory m)
  /\ (forall envs,
        Forall (λ env, exit_is_set env = false /\ rx_get env = None
                       /\ out_of_time env = false) envs ->
        exists m', run m envs = (None, m') /\ inventory m' = inventory m)
  /\ (forall env, polls (events (iteration m env).2) = S (polls (events m)))
  /\ (forall queued deadline qsize,
        iteration m (Answers true queued deadline qsize)
        = (Leave Cancelled, emit (PollExit true) m))
  /\ (forall envs env envs' m',
        run m envs = (None, m') -> exit_is_set env = true ->
        run m (envs ++ env :: envs') = (Some Cancelled, emit (PollExit true) m')
        /\ polls (events m') = (polls (events m) + length envs)%nat
        /\ dequeues (events (emit (PollExit true) m')) = dequeues (events m')
        /\ inventory (emit (PollExit true) m') = inventory m').
Proof.
  split; [intros deadline qsize; by apply iteration_empty|].
  split; [intros envs Hall; by apply run_empty_queue|].
  split; [apply iteration_polls|].
  split; [intros; by apply iteration_cancelled|].
  intros envs env envs' m' Hrun Hset. split.
  - rewrite (run_app _ _ _ _ Hrun). simpl.
    by rewrite (iteration_cancelled _ _ Hset).
  - split; [by apply run_polls|]. split; [|done].
    cbn [events emit]. rewrite dequeues_snoc. simpl. lia.
Qed.

Lemma ingestion_loop_timeout_and_cancel_witness :
  let m := Manager empty_inventory false 0 [] in
  let idle := Answers false None false 0 in
  exists m',
    run m [idle; idle] = (None, m')
    /\ inventory m' = inventory m
    /\ run m ([idle; idle] ++ Answers true (Some queued_frame) false 0
                :: [Answers false (Some queued_frame) false 0])
       = (Some Cancelled, emit (PollExit true) m')
    /\ polls (events m') = 2%nat
    /\ dequeues (events (emit (PollExit true) m')) = dequeues (events m').
Proof.
  intros m idle.
  destruct (ingestion_loop_timeout_and_cancel m)
    as (_ & Hidle & _ & _ & Hcancel).
  destruct (Hidle [idle; idle]) as (m' & Hrun & Hinv).
  { repeat constructor. }
  exists m'. split; [exact Hrun|]. split; [exact Hinv|].
  destruct (Hcancel [idle; idle] (Answers true (Some queued_frame) false 0)
              [Answers false (Some queued_frame) false 0] m' Hrun eq_refl)
    as (Hleft & Hpolls & Hdeq & _).
  split; [exact Hleft|]. split; [exact Hpolls|exact Hdeq].
Defined.

(** * Further properties *)

(** ** More on [decode] *)

Lemma full_chunks_app_multiple (width k : nat) (body1 body2 : list byte) :
  length body1 = (k * S width)%nat ->
  full_chunks width (body1 ++ body2)
  = full_chunks width body1 ++ full_chunks width body2.
Proof.
  revert body1. induction k as [|k IH]; intros body1 Hlen.
  - by destruct body1.
  - assert (Hbody : body1 = take (S width) body1 ++ drop (S width) body1)
      by (symmetry; apply take_drop).
    assert (Hc : length (take (S width) body1) = S width)
      by (rewrite length_take; lia).
    assert (Hrest : length (drop (S width) body1) = (k * S width)%nat)
      by (rewrite length_drop; lia).
    specialize (IH _ Hrest). revert Hbody Hc IH.
    generalize (take (S width) body1) (drop (S width) body1).
    intros c rest -> Hc IH.
    rewrite <- app_assoc, (full_chunks_app _ c (rest ++ body2)) by done.
    rewrite (full_chunks_app _ c rest) by done.
    by rewrite IH.
Qed.

(** X1. A frame can be decoded piecewise: when the first part of the body is
    a whole number of chunks, decoding the frame gives the same dictionary
    as decoding the header with the first part and then, on the result, the
    header with the second part. *)
Theorem decode_body_app
    (self : AdvertiserMessage) (b0 b1 : byte) (body1 body2 : list byte) (k : nat) :
  data_payload self = b0 :: b1 :: body1 ++ body2 ->
  length body1 = (k * (address_width b0 + 1))%nat ->
  exists whole first second,
    decode self = Ok whole
    /\ decode (set_payload (b0 :: b1 :: body1) self) = Ok first
    /\ decode (set_payload (b0 :: b1 :: body2) first) = Ok second
    /\ adv whole = adv second
    /\ adv_type whole = adv_type second
    /\ adv_reserved_field whole = adv_reserved_field second.
Proof.
  intros Hpayload Hlen.
  replace (address_width b0 + 1)%nat with (S (address_width b0)) in Hlen by lia.
  eexists _, _, _.
  split; [by apply decode_payload|].
  split; [by apply decode_payload|].
  split; [by apply decode_payload|].
  cbn [adv adv_type adv_reserved_field set_adv set_header set_payload timestamp].
  split; [|done].
  unfold records. rewrite (full_chunks_app_multiple _ k) by done.
  by rewrite fmap_app, foldl_app.
Qed.

Lemma decode_body_app_witness :
  exists whole first second,
    decode (Message frame_rss_repeat 9 ∅ None None None) = Ok whole
    /\ decode (Message [x02; x00; x07; x00; x00; x64; x07; x00; x00; xfe]
                 9 ∅ None None None) = Ok first
    /\ decode (set_payload [x02; x00; x07; x00; x00; x66] first) = Ok second
    /\ adv whole = adv second.
Proof.
  destruct (decode_body_app (Message frame_rss_repeat 9 ∅ None None None)
              x02 x00 [x07; x00; x00; x64; x07; x00; x00; xfe]
              [x07; x00; x00; x66] 2 eq_refl eq_refl)
    as (whole & first & second & Hw & Hf & Hs & Hadv & _).
  exists whole, first, second. repeat split; assumption.
Defined.

Lemma foldl_put_dom ts ty (rs : list (Z * Z)) (d : gmap Z node) :
  dom (foldl (put ts ty) d rs) = dom d ∪ list_to_set rs.*1.
Proof.
  revert d. induction rs as [|r rs IH]; intros d; simpl.
  - by rewrite (right_id_L ∅ (∪)).
  - rewrite IH. unfold put. rewrite dom_insert_L.
    rewrite (comm_L (∪) {[r.1]} (dom d)). by rewrite (assoc_L (∪)).
Qed.

Lemma little_endian_range (bs : list byte) :
  0 <= little_endian bs < 256 ^ Z.of_nat (length bs).
Proof.
  induction bs as [|b bs IH].
  - simpl. lia.
  - change (little_endian (b :: bs)) with (byte_to_int b + 256 * little_endian bs).
    pose proof (byte_to_int_range b).
    replace (Z.of_nat (length (b :: bs))) with (Z.succ (Z.of_nat (length bs)))
      by (simpl; lia).
    rewrite Z.pow_succ_r by lia. lia.
Qed.

Lemma byte_to_int_inj (a b : byte) : byte_to_int a = byte_to_int b -> a = b.
Proof.
  unfold byte_to_int. intros H.
  assert (HN : Byte.to_N a = Byte.to_N b) by lia.
  pose proof (Byte.of_to_N a) as Ha. rewrite HN, Byte.of_to_N in Ha.
  congruence.
Qed.

Lemma little_endian_inj (bs1 bs2 : list byte) :
  length bs1 = length bs2 -> little_endian bs1 = little_endian bs2 -> bs1 = bs2.
Proof.
  revert bs2. induction bs1 as [|a bs1 IH]; intros [|b bs2] Hlen Heq;
    try done.
  change (byte_to_int a + 256 * little_endian bs1
          = byte_to_int b + 256 * little_endian bs2) in Heq.
  pose proof (byte_to_int_range a). pose proof (byte_to_int_range b).
  assert (byte_to_int a = byte_to_int b /\ little_endian bs1 = little_endian bs2)
    as [Ha Hbs] by lia.
  f_equal; [by apply byte_to_int_inj|]. apply IH; [simpl in Hlen; lia|done].
Qed.

Lemma full_chunks_length (width : nat) (body c : list byte) :
  c ∈ full_chunks width body -> length c = S width.
Proof. unfold full_chunks. rewrite list_elem_of_filter. by intros [? _]. Qed.

Lemma records_addresses (width : nat) (body : list byte) :
  (records width body).*1 = little_endian <$> (take width <$> full_chunks width body).
Proof. unfold records. rewrite <- !list_fmap_compose. done. Qed.

(** X2. The node addresses of a frame: after [decode] the dictionary has the
    keys it had plus the addresses of the frame's records, and each of these
    is below 2^24 with three address bytes and below 2^32 with four. *)
Theorem decode_node_addresses
    (self : AdvertiserMessage) (b0 b1 : byte) (body : list byte) :
  data_payload self = b0 :: b1 :: body ->
  exists self',
    decode self = Ok self'
    /\ dom (adv self')
       = dom (adv self) ∪ list_to_set (records (address_width b0) body).*1
    /\ forall a, a ∈ (records (address_width b0) body).*1 ->
         0 <= a < 2 ^ (8 * Z.of_nat (address_width b0)).
Proof.
  intros Hpayload. eexists. split; [by apply decode_payload|].
  cbn [adv set_adv set_header]. split; [apply foldl_put_dom|].
  intros a. rewrite records_addresses.
  intros (bs & -> & (c & -> & Hc)%list_elem_of_fmap)%list_elem_of_fmap.
  apply full_chunks_length in Hc.
  pose proof (little_endian_range (take (address_width b0) c)) as Hrange.
  rewrite length_take, Hc in Hrange.
  replace (address_width b0 `min` S (address_width b0))%nat
    with (address_width b0) in Hrange by lia.
  rewrite Z.pow_mul_r by lia. exact Hrange.
Qed.

Lemma decode_node_addresses_witness :
  exists self',
    decode (Message frame_otap_tail 7 {[ 5 := new_node ]} None None None) = Ok self'
    /\ dom (adv self') = {[ 5; 0x04030201; 0x0d0c0b0a ]}
    /\ 0 <= 0x0d0c0b0a < 2 ^ 32.
Proof.
  destruct (decode_node_addresses
              (Message frame_otap_tail 7 {[ 5 := new_node ]} None None None)
              x83 x00 (drop 2 frame_otap_tail) eq_refl)
    as (self' & Hdecode & Hdom & Hrange).
  exists self'. split; [exact Hdecode|]. split.
  - rewrite Hdom. vm_compute. reflexivity.
  - apply (Hrange 0x0d0c0b0a). vm_compute.
    apply elem_of_cons. right. apply elem_of_cons. by left.
Defined.

(** X3. [decode] writes the two header fields and the dictionary only:
    payload, timestamp and index stay as they were.  The type it stores is
    below 128 and the reserved field is a byte.  A frame without a full
    chunk (header only, or a body shorter than one chunk) leaves the
    dictionary unchanged. *)
Theorem decode_touches_apdu_only
    (self : AdvertiserMessage) (b0 b1 : byte) (body : list byte) :
  data_payload self = b0 :: b1 :: body ->
  exists self' ty reserved,
    decode self = Ok self'
    /\ data_payload self' = data_payload self
    /\ timestamp self' = timestamp self
    /\ index self' = index self
    /\ adv_type self' = Some ty /\ 0 <= ty <= 127
    /\ adv_reserved_field self' = Some reserved /\ 0 <= reserved <= 255
    /\ ((length body < address_width b0 + 1)%nat -> adv self' = adv self).
Proof.
  intros Hpayload. eexists _, _, _.
  split; [by apply decode_payload|].
  cbn [data_payload timestamp index adv adv_type adv_reserved_field
       set_adv set_header].
  repeat split; try done.
  - unfold frame_type. apply Z.land_nonneg. right. lia.
  - unfold frame_type.
    change (Z.land (byte_to_int b0) 127)
      with (Z.land (byte_to_int b0) (Z.ones 7)).
    rewrite Z.land_ones by lia.
    pose proof (Z.mod_pos_bound (byte_to_int b0) (2 ^ 7)). lia.
  - apply byte_to_int_range.
  - pose proof (byte_to_int_range b1). lia.
  - intros Hshort. unfold records.
    by rewrite full_chunks_short by lia.
Qed.

Lemma decode_touches_apdu_only_witness :
  exists self',
    decode (Message [x82; x11; x01; x02; x03; x04] 7 {[ 5 := new_node ]}
              None None (Some 3)) = Ok self'
    /\ index self' = Some 3
    /\ adv_type self' = Some 2
    /\ adv self' = {[ 5 := new_node ]}.
Proof.
  destruct (decode_touches_apdu_only
              (Message [x82; x11; x01; x02; x03; x04] 7 {[ 5 := new_node ]}
                 None None (Some 3))
              x82 x11 [x01; x02; x03; x04] eq_refl)
    as (self' & ty & reserved & Hdecode & _ & _ & Hindex & Hty & _ & _ & _ & Hadv).
  exists self'. split; [exact Hdecode|]. split; [exact Hindex|]. split.
  - vm_compute in Hdecode. injection Hdecode as <-. reflexivity.
  - apply Hadv. vm_compute. lia.
Defined.

Lemma remove_dups_fmap_inj {A B} `{EqDecision A} `{EqDecision B}
    (f : A -> B) (l : list A) :
  (forall x y, x ∈ l -> y ∈ l -> f x = f y -> x = y) ->
  remove_dups (f <$> l) = f <$> remove_dups l.
Proof.
  induction l as [|x l IH]; intros Hinj; [done|].
  assert (IH' : remove_dups (f <$> l) = f <$> remove_dups l).
  { apply IH. intros y z Hy Hz. apply Hinj; by apply elem_of_cons; right. }
  rewrite fmap_cons. cbn [remove_dups]. rewrite IH'.
  destruct (decide_rel elem_of x l) as [Hx|Hx],
           (decide_rel elem_of (f x) (f <$> l)) as [Hfx|Hfx]; try done.
  - exfalso. apply Hfx. apply list_elem_of_fmap. eauto.
  - exfalso. apply list_elem_of_fmap in Hfx as (y & Hfy & Hy). apply Hx.
    rewrite (Hinj x y); [done|apply elem_of_cons; by left
                        |apply elem_of_cons; by right|done].
Qed.

Lemma size_list_to_set_remove_dups (l : list Z) :
  size (list_to_set l : gset Z) = length (remove_dups l).
Proof.
  rewrite <- (size_list_to_set (C := gset Z) (remove_dups l))
    by apply NoDup_remove_dups.
  f_equal. apply set_eq. intros a.
  by rewrite !elem_of_list_to_set, elem_of_remove_dups.
Qed.

(** X4. Nodes are told apart by their address bytes: a message built from a
    frame has as many entries in its dictionary as the full chunks of the
    frame have distinct address fields, so two different address fields
    never share an entry and equal ones always do. *)
Theorem init_one_node_per_address
    (counter ts : Z) (b0 b1 : byte) (body : list byte) :
  exists message,
    init counter (b0 :: b1 :: body) ts = (counter + 1, Ok message)
    /\ size (adv message)
       = length (remove_dups (take (address_width b0)
                                <$> full_chunks (address_width b0) body)).
Proof.
  unfold init, count.
  eexists. split; [f_equal; by apply decode_payload|].
  cbn [adv set_adv set_index set_header timestamp].
  rewrite <- size_dom, foldl_put_dom, dom_empty_L, (left_id_L ∅ (∪)).
  rewrite size_list_to_set_remove_dups, records_addresses.
  rewrite remove_dups_fmap_inj; [by rewrite length_fmap|].
  intros bs1 bs2 (c1 & -> & Hc1%full_chunks_length)%list_elem_of_fmap
                 (c2 & -> & Hc2%full_chunks_length)%list_elem_of_fmap.
  apply little_endian_inj. rewrite !length_take. lia.
Qed.

(** ** What the lists of a node can hold *)

Lemma new_node_follows_type ty : lists_follow_type ty new_node.
Proof. unfold lists_follow_type. simpl. repeat split; done. Qed.

Lemma route_follows_type (ty ts : Z) (b : byte) (n : node) :
  lists_follow_type ty n ->
  lists_follow_type ty (route_by_truthiness ty (byte_to_int b) (set_time ts n)).
Proof.
  intros (Hrss & Hotap & Hnorss & Hnootap & Hvalue).
  pose proof (byte_to_int_range b) as Hb.
  unfold route_by_truthiness, lists_follow_type.
  destruct (ty =? message_type_rss) eqn:Ersss.
  - apply Z.eqb_eq in Ersss.
    destruct (byte_to_int b =? 254) eqn:E254; simpl.
    + repeat split; try done. apply Forall_app. split; [done|].
      by apply Forall_singleton.
    + apply Z.eqb_neq in E254. repeat split; try done.
      apply Forall_app. split; [done|]. apply Forall_singleton.
      exists (byte_to_int b - 2 * 127). rewrite rss_exact. repeat split; lia.
  - apply Z.eqb_neq in Ersss.
    destruct (ty =? message_type_otap) eqn:Eotap.
    + apply Z.eqb_eq in Eotap.
      destruct (byte_to_int b =? 0) eqn:E0; simpl.
      * repeat split; try done. apply Forall_app. split; [done|].
        by apply Forall_singleton.
      * apply Z.eqb_neq in E0. repeat split; try done.
        apply Forall_app. split; [done|]. apply Forall_singleton. lia.
    + apply Z.eqb_neq in Eotap. simpl. repeat split; try done.
      apply Forall_app. split; [done|]. apply Forall_singleton.
      exists (byte_to_int b). split; [done|lia].
Qed.

Lemma foldl_put_follows_type (ty ts : Z) (width : nat) (chunks : list (list byte)) :
  forall d : gmap Z node,
    map_Forall (λ _ n, lists_follow_type ty n) d ->
    map_Forall (λ _ n, lists_follow_type ty n)
      (foldl (put ts (Some ty)) d (record_of width <$> chunks)).
Proof.
  induction chunks as [|c chunks IH]; intros d Hd; [done|].
  rewrite fmap_cons. cbn [foldl]. apply IH.
  unfold put, record_of. cbn [fst snd]. rewrite file_sample_route.
  apply map_Forall_insert_2; [|done].
  apply route_follows_type.
  destruct (d !! _) as [n|] eqn:E; simpl.
  - by apply (Hd _ _ E).
  - apply new_node_follows_type.
Qed.

Lemma foldl_put_seen ts ty (rs : list (Z * Z)) :
  forall d : gmap Z node,
    map_Forall (λ _ n, time n = Some ts /\ (0 < sample_count n)%nat) d ->
    map_Forall (λ _ n, time n = Some ts /\ (0 < sample_count n)%nat)
      (foldl (put ts ty) d rs).
Proof.
  induction rs as [|r rs IH]; intros d Hd; [done|].
  cbn [foldl]. apply IH. unfold put.
  apply map_Forall_insert_2; [|done].
  rewrite file_sample_time, file_sample_count. split; [done|lia].
Qed.

(** X5. Decoding frames of one type keeps the lists apart: if the ["rss"]
    lists hold only non-zero half-dB values from -127 to 0.5, the ["otap"]
    lists only bytes from 1 to 255, the list of the other kind is empty and
    the ["value"] lists hold only what the frame type sends there (0.0 for
    RSS, 0 for OTAP, a byte otherwise), then the same is true after [decode]
    of another frame of that type. *)
Theorem decode_keeps_lists_by_type
    (self : AdvertiserMessage) (b0 b1 : byte) (body : list byte) :
  data_payload self = b0 :: b1 :: body ->
  map_Forall (λ _ n, lists_follow_type (frame_type b0) n) (adv self) ->
  exists self',
    decode self = Ok self'
    /\ map_Forall (λ _ n, lists_follow_type (frame_type b0) n) (adv self').
Proof.
  intros Hpayload Hbefore. eexists. split; [by apply decode_payload|].
  cbn [adv set_adv]. by apply foldl_put_follows_type.
Qed.

Lemma decode_keeps_lists_by_type_witness :
  exists self',
    decode (Message frame_rss_repeat 9
              {[ 7 := Node (Some 1) [0.5%float] [] [PyFloat 0%float] ]}
              None None None) = Ok self'
    /\ map_Forall (λ _ n, lists_follow_type 2 n) (adv self').
Proof.
  apply (decode_keeps_lists_by_type
           (Message frame_rss_repeat 9
              {[ 7 := Node (Some 1) [0.5%float] [] [PyFloat 0%float] ]}
              None None None)
           x02 x00 (drop 2 frame_rss_repeat) eq_refl).
  apply map_Forall_singleton. unfold lists_follow_type. simpl.
  repeat split; try done.
  - apply Forall_singleton. exists 1. vm_compute. repeat split; congruence.
  - by apply Forall_singleton.
Defined.

(** X6. In a message that has just been built from a frame, every node of
    the dictionary carries the message's timestamp and at least one sample,
    and its lists follow the type of the frame: RSS samples for RSS frames
    only and never 0.0, OTAP samples for OTAP frames only and never 0. *)
Theorem init_nodes_seen_and_typed
    (counter ts : Z) (b0 b1 : byte) (body : list byte) :
  exists message,
    init counter (b0 :: b1 :: body) ts = (counter + 1, Ok message)
    /\ forall a n,
         adv message !! a = Some n ->
         time n = Some ts
         /\ (0 < sample_count n)%nat
         /\ lists_follow_type (frame_type b0) n.
Proof.
  unfold init, count.
  eexists. split; [f_equal; by apply decode_payload|].
  cbn [adv set_adv set_index set_header timestamp].
  intros a n Hn.
  destruct (foldl_put_seen ts (Some (frame_type b0))
              (records (address_width b0) body) ∅ (map_Forall_empty _) a n Hn)
    as [Htime Hcount].
  split; [done|]. split; [done|].
  apply (foldl_put_follows_type (frame_type b0) ts (address_width b0)
           (full_chunks (address_width b0) body) ∅ (map_Forall_empty _) a n Hn).
Qed.

(** ** More on the ingestion loop *)

Lemma debug_logs_snoc es e :
  debug_logs (es ++ [e]) = (debug_logs es + if is_debug e then 1 else 0)%nat.
Proof.
  unfold debug_logs. rewrite List.filter_app, length_app. simpl.
  by destruct (is_debug e).
Qed.

Section MoreIngestionFacts.
Context {I : Type} `{InventoryOps I}.

Lemma idle_pass (m : manager I) (qsize : Z) :
  0 <= empty_counter m <= 10 ->
  exists m',
    iteration m (Answers false None false qsize) = (Continue, m')
    /\ inventory m' = inventory m
    /\ has_storage_queue m' = has_storage_queue m
    /\ empty_counter m' = (empty_counter m + 1) mod 11
    /\ debug_logs (events m')
       = (debug_logs (events m) + if (empty_counter m =? 10)%Z then 1 else 0)%nat.
Proof.
  intros Hc. unfold iteration. cbn [exit_is_set rx_get out_of_time].
  cbn [emit set_empty_counter empty_counter inventory events has_storage_queue].
  destruct (10 <? empty_counter m + 1) eqn:E.
  - apply Z.ltb_lt in E. assert (Hten : empty_counter m = 10) by lia.
    eexists. split; [reflexivity|].
    cbn [emit set_empty_counter empty_counter inventory events has_storage_queue].
    rewrite Hten. repeat split.
    rewrite !debug_logs_snoc. simpl. lia.
  - apply Z.ltb_ge in E.
    eexists. split; [reflexivity|].
    cbn [emit set_empty_counter empty_counter inventory events has_storage_queue].
    repeat split.
    + rewrite Z.mod_small; lia.
    + rewrite !debug_logs_snoc. simpl.
      destruct (empty_counter m =? 10) eqn:E10; [apply Z.eqb_eq in E10|]; lia.
Qed.

Lemma idle_passes (qsize : Z) (n : nat) :
  forall m : manager I,
    0 <= empty_counter m <= 10 ->
    exists m',
      run m (replicate n (Answers false None false qsize)) = (None, m')
      /\ inventory m' = inventory m
      /\ empty_counter m' = (empty_counter m + Z.of_nat n) mod 11
      /\ Z.of_nat (debug_logs (events m'))
         = Z.of_nat (debug_logs (events m)) + (empty_counter m + Z.of_nat n) / 11.
Proof.
  induction n as [|n IH]; intros m Hc.
  - exists m. simpl. rewrite Z.add_0_r, Z.mod_small, Z.div_small by lia.
    repeat split; lia.
  - destruct (idle_pass m qsize Hc) as (m1 & Hpass & Hinv & _ & Hcount & Hlogs).
    cbn [replicate run]. rewrite Hpass.
    destruct (IH m1) as (m' & Hrun & Hinv' & Hcount' & Hlogs').
    { rewrite Hcount. pose proof (Z.mod_pos_bound (empty_counter m + 1) 11). lia. }
    exists m'. split; [exact Hrun|]. split; [congruence|].
    rewrite Hcount', Hlogs', Hlogs, Hcount.
    generalize (debug_logs (events m)) (empty_counter m) Hc. clear.
    intros logs c Hc.
    destruct (c =? 10) eqn:E10;
      [apply Z.eqb_eq in E10|apply Z.eqb_neq in E10];
      rewrite Nat2Z.inj_add, Nat2Z.inj_succ;
      split; Z.div_mod_to_equations; lia.
Qed.

End MoreIngestionFacts.

(** X7. While the queue stays empty before the deadline, the loop counts the
    timeouts and logs that no messages are being received at every eleventh
    one in a row: after [n] such passes from the start of a run the counter
    is [n mod 11], the message has been logged [n / 11] times, the loop is
    still running and the inventory is as it was. *)
Theorem test_inventory_idle_logging {I : Type} `{InventoryOps I}
    (previous qsize : Z) (m : manager I) (n : nat) :
  exists m',
    test_inventory previous m (replicate n (Answers false None false qsize))
    = (0, (None, m'))
    /\ inventory m' = inventory m
    /\ empty_counter m' = Z.of_nat n mod 11
    /\ Z.of_nat (debug_logs (events m'))
       = Z.of_nat (debug_logs (events m)) + Z.of_nat n / 11.
Proof.
  unfold test_inventory.
  destruct (idle_passes qsize n (set_empty_counter 0 m))
    as (m' & Hrun & Hinv & Hcount & Hlogs); [simpl; lia|].
  exists m'. split; [by rewrite Hrun|]. done.
Qed.



(** X9. Why a pass ends the loop is decided in a fixed order: a set exit
    signal first, then the deadline, and only for a frame that was added
    before the deadline the completion tests, node set before OTAP before
    frequency; otherwise the loop goes on. *)
Theorem iteration_exit_order {I : Type} `{InventoryOps I}
    (m : manager I) (env : answers) :
  (iteration m env).1
  = if exit_is_set env then Leave Cancelled
    else if out_of_time env then Leave TimedOut
    else match rx_get env with
         | None => Continue
         | Some message =>
             let i := add_all message (inventory m) in
             if is_complete i then Leave Complete
             else if is_otaped i then Leave Otaped
             else if is_frequency_reached i then Leave FrequencyReached
             else Continue
         end.
Proof.
  unfold iteration.
  destruct (exit_is_set env); [done|].
  destruct (rx_get env) as [message|].
  - cbn [emit set_empty_counter set_inventory empty_counter inventory events
         has_storage_queue].
    destruct (has_storage_queue m), (100 <? storage_qsize env),
      (out_of_time env);
      cbn [emit set_empty_counter set_inventory empty_counter inventory events
           has_storage_queue fst]; try done;
      by repeat match goal with
                | |- context [if ?b then _ else _] => destruct b
                end.
  - destruct (out_of_time env), (10 <? _); done.
Qed.

(** ** The reporting loop *)

Lemma fetch_loop_raises {R} (env : nat -> report_answers R) (remaining : nat) :
  forall run reports warnings,
    fetch_loop env run remaining reports warnings = None
    <-> exists i, (run <= i < run + remaining)%nat
                  /\ report_exit_is_set (env i) = true.
Proof.
  induction remaining as [|k IH]; intros run reports warnings; simpl.
  - split; [done|]. intros (i & Hi & _). lia.
  - destruct (report_get (env run)) as [report|];
      destruct (report_exit_is_set (env run)) eqn:E.
    + split; [|done]. intros _. exists run. split; [lia|done].
    + rewrite IH. split; intros (i & Hi & Hset); exists i; (split; [|done]).
      * lia.
      * destruct (decide (i = run)) as [->|]; [congruence|lia].
    + split; [|done]. intros _. exists run. split; [lia|done].
    + rewrite IH. split; intros (i & Hi & Hset); exists i; (split; [|done]).
      * lia.
      * destruct (decide (i = run)) as [->|]; [congruence|lia].
Qed.

Lemma fetch_loop_reports {R} (env : nat -> report_answers R) (remaining : nat) :
  forall run reports warnings reports' warnings',
    fetch_loop env run remaining reports warnings = Some (reports', warnings') ->
    (forall i, (run <= i)%nat -> reports !! i = None) ->
    (forall i, reports' !! i
               = if decide (run <= i < run + remaining)%nat
                 then report_get (env i) else reports !! i)
    /\ warnings'
       = (warnings
          + length (filter (λ i, report_get (env i) = None) (seq run remaining)))%nat.
Proof.
  induction remaining as [|k IH];
    intros run reports warnings reports' warnings' Hloop Hfresh; simpl in Hloop.
  - injection Hloop as <- <-. split; [|simpl; lia].
    intros i. rewrite decide_False by lia. done.
  - destruct (report_exit_is_set (env run)); [by destruct (report_get _)|].
    cbn [seq]. destruct (report_get (env run)) as [report|] eqn:Eget.
    + apply IH in Hloop as [Hlookup Hwarn].
      2:{ intros i Hi. rewrite lookup_insert_ne by lia. apply Hfresh. lia. }
      split.
      * intros i. rewrite Hlookup.
        destruct (decide (i = run)) as [->|Hne].
        -- rewrite decide_False, decide_True by lia.
           by rewrite lookup_insert_eq, Eget.
        -- rewrite lookup_insert_ne by done.
           repeat case_decide; (done || lia).
      * rewrite Hwarn, filter_cons_False by (rewrite Eget; done). done.
    + apply IH in Hloop as [Hlookup Hwarn].
      2:{ intros i Hi. apply Hfresh. lia. }
      split.
      * intros i. rewrite Hlookup.
        destruct (decide (i = run)) as [->|Hne].
        -- rewrite decide_False, decide_True by lia.
           rewrite Eget. apply Hfresh. lia.
        -- repeat case_decide; (done || lia).
      * rewrite Hwarn, filter_cons_True by done. simpl. lia.
Qed.

(** X10. [fetch_report] raises [RuntimeError] exactly when the exit signal
    is found set after one of the [number_of_runs] waits; nothing is then
    written, whatever reports have arrived, the one of that very run
    included. *)
Theorem fetch_report_cancelled {R : Type}
    (output now : string) (output_time : bool) (number_of_runs : Z)
    (env : nat -> report_answers R) :
  fetch_report output output_time now number_of_runs env = RaisedRuntimeError
  <-> exists i : nat, Z.of_nat i < number_of_runs
                      /\ report_exit_is_set (env i) = true.
Proof.
  unfold fetch_report.
  destruct (fetch_loop env 0 (Z.to_nat number_of_runs) ∅ 0) as [[reports w]|] eqn:E.
  - split; [done|]. intros (i & Hi & Hset).
    assert (Hnone : fetch_loop env 0 (Z.to_nat number_of_runs) ∅ 0 = None).
    { apply fetch_loop_raises. exists i. split; [lia|done]. }
    congruence.
  - split; [|done]. intros _.
    apply fetch_loop_raises in E as (i & Hi & Hset).
    exists i. split; [lia|done].
Qed.

Lemma fetch_report_cancelled_witness :
  fetch_report "out.json" false "now" 3
    (λ i : nat, ReportAnswers (Some i) (i =? 2)%nat)
  = RaisedRuntimeError.
Proof.
  apply (fetch_report_cancelled "out.json" "now" false 3
           (λ i : nat, ReportAnswers (Some i) (i =? 2)%nat)).
  exists 2%nat. split; [lia|reflexivity].
Defined.

(** X11. When the exit signal is never found set, [fetch_report] writes one
    file: its name is [args.output], prefixed with the current time and an
    underscore when [args.output_time] is set, and the reports are keyed by
    run number, a run whose wait timed out leaving its key out and a warning
    in the log. *)
Theorem fetch_report_written {R : Type}
    (output now : string) (output_time : bool) (number_of_runs : Z)
    (env : nat -> report_answers R) :
  (forall i : nat, Z.of_nat i < number_of_runs ->
                   report_exit_is_set (env i) = false) ->
  exists reports,
    fetch_report output output_time now number_of_runs env
    = ToJson (if output_time then (now +:+ "_" +:+ output)%string else output)
        reports
        (length (filter (λ i, report_get (env i) = None)
                   (seq 0 (Z.to_nat number_of_runs))))
    /\ forall i : nat,
         reports !! i
         = if decide (Z.of_nat i < number_of_runs) then report_get (env i)
           else None.
Proof.
  intros Hnever. unfold fetch_report.
  destruct (fetch_loop env 0 (Z.to_nat number_of_runs) ∅ 0) as [[reports w]|] eqn:E.
  - destruct (fetch_loop_reports _ _ _ _ _ _ _ E) as [Hlookup Hwarn]; [done|].
    exists reports. split; [by rewrite Hwarn|].
    intros i. rewrite Hlookup.
    repeat case_decide; (done || lia).
  - apply fetch_loop_raises in E as (i & Hi & Hset).
    rewrite Hnever in Hset by lia. done.
Qed.

Lemma fetch_report_written_witness :
  let env := λ i : nat, ReportAnswers (if (i =? 1)%nat then None else Some i) false in
  exists reports,
    fetch_report "out.json" true "2019-06-01T12:00:00" 3 env
    = ToJson "2019-06-01T12:00:00_out.json" reports 1
    /\ reports !! 0%nat = Some 0%nat
    /\ reports !! 1%nat = None
    /\ reports !! 2%nat = Some 2%nat
    /\ reports !! 3%nat = None.
Proof.
  intros env.
  destruct (fetch_report_written "out.json" "2019-06-01T12:00:00" true 3 env)
    as (reports & Hwritten & Hlookup); [done|].
  exists reports. split; [exact Hwritten|].
  rewrite !Hlookup. done.
Defined.

(** ** Serialization of the apdu *)

Lemma serialize_fold (full : bool) (ser : gmap string serialized)
    (apdu : gmap string apdu_value) :
  match map_fold (serialize_field full) (Some ser) apdu with
  | None => exists field v, apdu !! field = Some v
                            /\ serialize_value full field v = None
  | Some ser' =>
      (forall field v, apdu !! field = Some v ->
                       is_Some (serialize_value full field v))
      /\ forall field,
           ser' !! field = match apdu !! field with
                           | Some v => serialize_value full field v
                           | None => ser !! field
                           end
  end.
Proof.
  apply (map_fold_weak_ind
           (λ r m, match r with
                   | None => exists field v, m !! field = Some v
                                             /\ serialize_value full field v = None
                   | Some ser' =>
                       (forall field v, m !! field = Some v ->
                                        is_Some (serialize_value full field v))
                       /\ forall field,
                            ser' !! field = match m !! field with
                                            | Some v => serialize_value full field v
                                            | None => ser !! field
                                            end
                   end)).
  - split; [intros field v; by rewrite lookup_empty|].
    intros field. by rewrite lookup_empty.
  - intros i x m r Hi Hr. destruct r as [ser'|]; simpl.
    + destruct Hr as [Hok Hlookup].
      destruct (serialize_value full i x) as [s|] eqn:Es; simpl.
      * split.
        -- intros field v. rewrite lookup_insert. case_decide.
           ++ intros [= <-]. subst. by rewrite Es.
           ++ apply Hok.
        -- intros field. rewrite !lookup_insert. case_decide.
           ++ subst. by rewrite Es.
           ++ apply Hlookup.
      * exists i, x. by rewrite lookup_insert_eq.
    + destruct Hr as (field & v & Hfield & Hnone).
      exists field, v. split; [|done].
      rewrite lookup_insert_ne; [done|]. intros ->. congruence.
Qed.

(** X12. [_apdu_serialization] on an apdu with at least one field, none of
    which makes it fail: the serialization gets ["index"], and for every
    field of the apdu either the text of the sorted keys (when the field
    name occurs in ["advertisers"] and the full serialization is off) or the
    stored object; entries under other keys stay as they are. *)
Theorem apdu_serialization_fields
    (apdu : gmap string apdu_value) (full : bool) (index_ : option Z)
    (ser : gmap string serialized) :
  apdu ≠ ∅ ->
  (forall field v, apdu !! field = Some (Scalar v) ->
                   contains field "advertisers" && negb full = false) ->
  exists ser',
    apdu_serialization apdu full index_ ser = Some ser'
    /\ forall field,
         ser' !! field
         = if decide (field = "index") then Some (SerObject (Scalar index_))
           else match apdu !! field with
                | Some (AdvDict d) =>
                    Some (if contains field "advertisers" && negb full
                          then SerText (str_int_list (sorted_keys d))
                          else SerObject (AdvDict d))
                | Some (Scalar v) => Some (SerObject (Scalar v))
                | None => ser !! field
                end.
Proof.
  intros Hne Hscalars. unfold apdu_serialization.
  rewrite decide_False by done.
  pose proof (serialize_fold full ser apdu) as Hfold.
  destruct (map_fold _ _ _) as [ser'|]; cbn [mbind option_bind].
  - destruct Hfold as [_ Hlookup]. eexists. split; [done|].
    intros field. rewrite lookup_insert. case_decide; [by rewrite decide_True|].
    rewrite decide_False by done. rewrite Hlookup.
    destruct (apdu !! field) as [[d|v]|] eqn:E; [| |done];
      unfold serialize_value.
    + by destruct (contains field "advertisers" && negb full).
    + by rewrite (Hscalars _ _ E).
  - destruct Hfold as (field & [d|v] & Hfield & Hnone);
      unfold serialize_value in Hnone.
    + by destruct (contains field "advertisers" && negb full).
    + by rewrite (Hscalars _ _ Hfield) in Hnone.
Qed.

(** X13. [_apdu_serialization] fails exactly when some field whose name
    occurs in ["advertisers"] holds something that is not a dictionary while
    the full serialization is off; and with an empty apdu it does nothing at
    all, not even setting ["index"]. *)
Theorem apdu_serialization_failure
    (apdu : gmap string apdu_value) (full : bool) (index_ : option Z)
    (ser : gmap string serialized) :
  (apdu_serialization apdu full index_ ser = None
   <-> exists field v, apdu !! field = Some (Scalar v)
                       /\ contains field "advertisers" = true /\ full = false)
  /\ apdu_serialization ∅ full index_ ser = Some ser.
Proof.
  split; [|done]. unfold apdu_serialization.
  destruct (decide (apdu = ∅)) as [->|Hne].
  - split; [done|]. intros (field & v & Hfield & _).
    by rewrite lookup_empty in Hfield.
  - pose proof (serialize_fold full ser apdu) as Hfold.
    destruct (map_fold _ _ _) as [ser'|]; cbn [mbind option_bind].
    + destruct Hfold as [Hok _]. split; [done|].
      intros (field & v & Hfield & Hin & ->).
      destruct (Hok _ _ Hfield) as [s Hs].
      unfold serialize_value in Hs. by rewrite Hin in Hs.
    + split; [|done]. intros _.
      destruct Hfold as (field & [d|v] & Hfield & Hnone);
        unfold serialize_value in Hnone.
      * by destruct (contains field "advertisers" && negb full).
      * exists field, v. split; [done|].
        destruct (contains field "advertisers"), full; done.
Qed.

Lemma apdu_serialization_failure_witness :
  apdu_serialization {[ "adv" := AdvDict ∅; "s" := Scalar (Some 1) ]}
    false None ∅ = None.
Proof.
  apply (apdu_serialization_failure
           {[ "adv" := AdvDict ∅; "s" := Scalar (Some 1) ]} false None ∅).
  exists "s", (Some 1). split; [reflexivity|]. split; reflexivity.
Defined.

Lemma apdu_serialization_fields_witness :
  exists ser',
    apdu_serialization
      (apdu_of (Message frame_rss_two 12
                  {[ 2 := new_node; 1 := new_node ]} (Some 2) (Some 0) (Some 7)))
      false (Some 7) {[ "source_address" := SerObject (Scalar (Some 9)) ]}
    = Some ser'
    /\ ser' !! "adv" = Some (SerText "[1, 2]")
    /\ ser' !! "adv_type" = Some (SerObject (Scalar (Some 2)))
    /\ ser' !! "index" = Some (SerObject (Scalar (Some 7)))
    /\ ser' !! "source_address" = Some (SerObject (Scalar (Some 9))).
Proof.
  destruct (apdu_serialization_fields
              (apdu_of (Message frame_rss_two 12
                          {[ 2 := new_node; 1 := new_node ]}
                          (Some 2) (Some 0) (Some 7)))
              false (Some 7)
              {[ "source_address" := SerObject (Scalar (Some 9)) ]})
    as (ser' & Hser & Hlookup).
  - vm_compute. discriminate.
  - intros field v. unfold apdu_of. cbn [adv adv_type adv_reserved_field].
    rewrite !lookup_insert, lookup_singleton.
    repeat case_decide; subst; try discriminate; intros _; vm_compute;
      reflexivity.
  - exists ser'. split; [exact Hser|].
    rewrite !Hlookup. vm_compute. repeat split; reflexivity.
Defined.

Lemma StronglySorted_le_lt (l : list Z) :
  StronglySorted Z.le l -> NoDup l -> StronglySorted Z.lt l.
Proof.
  induction 1 as [|x l Hsorted IH Hall]; intros Hdup; [constructor|].
  apply NoDup_cons in Hdup as [Hx Hdup].
  constructor; [by apply IH|].
  rewrite Forall_forall in Hall |- *. intros y Hy.
  assert (x ≠ y) by (intros ->; done).
  specialize (Hall y Hy). lia.
Qed.

Lemma sorted_keys_spec (d : gmap Z node) :
  StronglySorted Z.lt (sorted_keys d)
  /\ forall a, a ∈ sorted_keys d <-> is_Some (d !! a).
Proof.
  unfold sorted_keys. split.
  - apply StronglySorted_le_lt.
    + apply StronglySorted_merge_sort; apply _.
    + rewrite merge_sort_Permutation. apply NoDup_fst_map_to_list.
  - intros a. rewrite merge_sort_Permutation, list_elem_of_fmap. split.
    + intros ([a' n] & -> & Hin). apply elem_of_map_to_list in Hin. eauto.
    + intros [n Hn]. exists (a, n). split; [done|].
      by apply elem_of_map_to_list.
Qed.

Lemma apdu_serialization_lookup
    (apdu : gmap string apdu_value) (full : bool) (index_ : option Z)
    (ser ser' : gmap string serialized) :
  apdu ≠ ∅ ->
  apdu_serialization apdu full index_ ser = Some ser' ->
  forall field,
    ser' !! field
    = if decide (field = "index") then Some (SerObject (Scalar index_))
      else match apdu !! field with
           | Some v => serialize_value full field v
           | None => ser !! field
           end.
Proof.
  intros Hne Hser field. unfold apdu_serialization in Hser.
  rewrite decide_False in Hser by done.
  pose proof (serialize_fold full ser apdu) as Hfold.
  destruct (map_fold _ _ _) as [acc|]; cbn [mbind option_bind] in Hser;
    [|done].
  injection Hser as <-. destruct Hfold as [_ Hlookup].
  rewrite lookup_insert. case_decide; [by rewrite decide_True|].
  rewrite decide_False by done. apply Hlookup.
Qed.

(** X14. By default the serialization of a message does not carry the
    samples: since ["adv"] occurs in ["advertisers"], the entry ["adv"] is
    the text of the node addresses in strictly ascending order, each address
    once, while ["adv_type"] and ["adv_reserved_field"], which do not occur
    in it, are stored as they are.  With the full serialization switched on
    the dictionary itself is stored.  This holds whatever other fields the
    apdu has, as long as the serialization succeeds. *)
Theorem apdu_serialization_of_message
    (self : AdvertiserMessage) (apdu : gmap string apdu_value) (full : bool)
    (ser ser' : gmap string serialized) :
  apdu_of self ⊆ apdu ->
  apdu_serialization apdu full (index self) ser = Some ser' ->
  ser' !! "adv"
  = Some (if full then SerObject (AdvDict (adv self))
          else SerText (str_int_list (sorted_keys (adv self))))
  /\ StronglySorted Z.lt (sorted_keys (adv self))
  /\ (forall a, a ∈ sorted_keys (adv self) <-> is_Some (adv self !! a))
  /\ ser' !! "adv_type" = Some (SerObject (Scalar (adv_type self)))
  /\ ser' !! "adv_reserved_field"
     = Some (SerObject (Scalar (adv_reserved_field self)))
  /\ ser' !! "index" = Some (SerObject (Scalar (index self))).
Proof.
  intros Hsub Hser.
  assert (Hadv : apdu !! "adv" = Some (AdvDict (adv self))).
  { eapply lookup_weaken; [|exact Hsub]. unfold apdu_of.
    by rewrite lookup_insert_eq. }
  assert (Hty : apdu !! "adv_type" = Some (Scalar (adv_type self))).
  { eapply lookup_weaken; [|exact Hsub]. unfold apdu_of.
    rewrite lookup_insert_ne by done. by rewrite lookup_insert_eq. }
  assert (Hres : apdu !! "adv_reserved_field"
                 = Some (Scalar (adv_reserved_field self))).
  { eapply lookup_weaken; [|exact Hsub]. unfold apdu_of.
    rewrite !lookup_insert_ne by done. by rewrite lookup_singleton_eq. }
  assert (Hne : apdu ≠ ∅) by (intros ->; by rewrite lookup_empty in Hadv).
  pose proof (apdu_serialization_lookup _ _ _ _ _ Hne Hser) as Hlookup.
  destruct (sorted_keys_spec (adv self)) as [Hsorted Hkeys].
  rewrite !Hlookup, Hadv, Hty, Hres.
  split; [by destruct full|]. split; [exact Hsorted|].
  split; [exact Hkeys|]. by destruct full.
Qed.

Lemma apdu_serialization_of_message_witness :
  let self := Message frame_rss_two 12 {[ 513 := new_node; 7 := new_node ]}
                (Some 2) (Some 0) (Some 4) in
  exists ser',
    apdu_serialization (<["hop_count" := Scalar (Some 3)]> (apdu_of self))
      false (index self) ∅ = Some ser'
    /\ ser' !! "adv" = Some (SerText "[7, 513]")
    /\ ser' !! "adv_type" = Some (SerObject (Scalar (Some 2))).
Proof.
  intros self.
  assert (Hser : is_Some (apdu_serialization
                            (<["hop_count" := Scalar (Some 3)]> (apdu_of self))
                            false (index self) ∅)) by (vm_compute; eauto).
  destruct Hser as [ser' Hser]. exists ser'. split; [exact Hser|].
  destruct (apdu_serialization_of_message self
              (<["hop_count" := Scalar (Some 3)]> (apdu_of self)) false ∅ ser')
    as (Hadv & _ & _ & Hty & _).
  - apply insert_subseteq. vm_compute. reflexivity.
  - exact Hser.
  - split; [|exact Hty]. rewrite Hadv. vm_compute. reflexivity.
Defined.

(** ** Storing advertiser messages *)

Section PutAdvertiserFacts.
Context {M T : Type} (utcnow : nat -> T).

Lemma rows_of_node_spec (message : stored_message M) (entry : Z * node) :
  forall values,
    exists new,
      rows_of_node utcnow message values entry = values ++ new
      /\ row_key <$> new = (λ v, (entry.1, v)) <$> value entry.2
      /\ Forall (λ r, row_columns r = columns message) new
      /\ forall j r, new !! j = Some r ->
                     logged_time r = utcnow (length values + j)%nat.
Proof.
  unfold rows_of_node. induction (value entry.2) as [|v vs IH]; intros values.
  - exists []. by rewrite app_nil_r.
  - cbn [foldl].
    destruct (IH (values ++ [AdvertiserRow (utcnow (length values))
                               (columns message) entry.1 v]))
      as (new & Hrows & Hkeys & Hcols & Htime).
    eexists (_ :: new). rewrite Hrows, <- app_assoc. split; [done|].
    split; [by rewrite !fmap_cons, Hkeys|]. split; [by constructor|].
    intros [|j] r Hr; simpl in Hr.
    + injection Hr as <-. simpl. f_equal. lia.
    + rewrite (Htime j r Hr), length_app. simpl. f_equal. lia.
Qed.

Lemma rows_of_message_spec (message : stored_message M) :
  forall values,
    exists new,
      rows_of_message utcnow values message = values ++ new
      /\ row_key <$> new
         = map_to_list (advertisers message)
             ≫= (λ entry, (λ v, (entry.1, v)) <$> value entry.2)
      /\ Forall (λ r, row_columns r = columns message) new
      /\ forall j r, new !! j = Some r ->
                     logged_time r = utcnow (length values + j)%nat.
Proof.
  unfold rows_of_message.
  induction (map_to_list (advertisers message)) as [|entry entries IH];
    intros values.
  - exists []. by rewrite app_nil_r.
  - cbn [foldl].
    destruct (rows_of_node_spec message entry values)
      as (new1 & -> & Hk1 & Hc1 & Ht1).
    destruct (IH (values ++ new1)) as (new2 & -> & Hk2 & Hc2 & Ht2).
    exists (new1 ++ new2). rewrite <- app_assoc. split; [done|].
    split; [by rewrite fmap_app, Hk1, Hk2|]. split; [by apply Forall_app|].
    intros j r Hr. apply lookup_app_Some in Hr as [Hr|[Hj Hr]].
    + by apply Ht1.
    + rewrite (Ht2 _ _ Hr), length_app. f_equal. lia.
Qed.

Lemma rows_of_messages_spec (messages : list (stored_message M)) :
  forall values,
    exists new,
      foldl (rows_of_message utcnow) values messages = values ++ new
      /\ row_key <$> new
         = messages ≫= (λ message,
             map_to_list (advertisers message)
               ≫= (λ entry, (λ v, (entry.1, v)) <$> value entry.2))
      /\ forall j r, new !! j = Some r ->
                     logged_time r = utcnow (length values + j)%nat.
Proof.
  induction messages as [|message messages IH]; intros values.
  - exists []. by rewrite app_nil_r.
  - cbn [foldl].
    destruct (rows_of_message_spec message values)
      as (new1 & -> & Hk1 & _ & Ht1).
    destruct (IH (values ++ new1)) as (new2 & -> & Hk2 & Ht2).
    exists (new1 ++ new2). rewrite <- app_assoc. split; [done|].
    split; [by rewrite fmap_app, Hk1, Hk2|].
    intros j r Hr. apply lookup_app_Some in Hr as [Hr|[Hj Hr]].
    + by apply Ht1.
    + rewrite (Ht2 _ _ Hr), length_app. f_equal. lia.
Qed.

End PutAdvertiserFacts.

Lemma value_total_to_list (d : gmap Z node) :
  value_total d
  = length (map_to_list d ≫= (λ entry, (λ v, (entry.1, v)) <$> value entry.2)).
Proof.
  unfold value_total. rewrite map_fold_foldr.
  induction (map_to_list d) as [|[a n] l IH]; [done|].
  cbn [foldr]. rewrite IH. rewrite bind_cons, length_app, length_fmap. done.
Qed.



Lemma value_total_insert (d : gmap Z node) (a : Z) (n : node) :
  (value_total (<[a := n]> d) + length (value (default new_node (d !! a)))
   = value_total d + length (value n))%nat.
Proof.
  unfold value_total.
  destruct (d !! a) as [old|] eqn:E; simpl.
  - rewrite <- insert_delete_eq.
    rewrite map_fold_insert_L; [|intros; lia|apply lookup_delete_eq].
    rewrite (map_fold_delete_L _ _ a old d); [lia|intros; lia|done].
  - rewrite map_fold_insert_L; [lia|intros; lia|done].
Qed.

Lemma route_value_length (ty raw : Z) (n : node) :
  length (value (route_by_truthiness ty raw n))
  = (length (value n) + if goes_to_value ty raw then 1 else 0)%nat.
Proof.
  unfold route_by_truthiness, goes_to_value.
  destruct (ty =? message_type_rss); [destruct (raw =? 254)|
    destruct (ty =? message_type_otap); [destruct (raw =? 0)|]];
    simpl; rewrite ?length_app; simpl; lia.
Qed.

Lemma put_value_total (ty ts : Z) (width : nat) (c : list byte)
    (d : gmap Z node) :
  value_total (put ts (Some ty) d (record_of width c))
  = (value_total d + if goes_to_value ty (record_of width c).2 then 1 else 0)%nat.
Proof.
  unfold put, record_of. cbn [fst snd]. rewrite file_sample_route.
  pose proof (value_total_insert d (little_endian (take width c))
    (route_by_truthiness ty (byte_to_int (default x00 (last c)))
       (set_time ts (default new_node (d !! little_endian (take width c))))))
    as Hins.
  rewrite route_value_length in Hins. cbn [value set_time] in Hins. lia.
Qed.

Lemma foldl_put_value_total (ty ts : Z) (width : nat) (chunks : list (list byte)) :
  forall d : gmap Z node,
    value_total (foldl (put ts (Some ty)) d (record_of width <$> chunks))
    = (value_total d
       + length (filter (λ r, goes_to_value ty r.2 = true)
                   (record_of width <$> chunks)))%nat.
Proof.
  induction chunks as [|c chunks IH]; intros d; [simpl; lia|].
  rewrite fmap_cons. cbn [foldl]. rewrite IH, put_value_total.
  destruct (goes_to_value ty (record_of width c).2) eqn:E.
  - rewrite filter_cons_True by done. simpl. lia.
  - rewrite filter_cons_False by congruence. lia.
Qed.


(** ** Nodes without a record *)

Lemma foldl_put_lookup_other ts ty (rs : list (Z * Z)) (d : gmap Z node) a :
  a ∉ rs.*1 -> foldl (put ts ty) d rs !! a = d !! a.
Proof.
  revert d. induction rs as [|r rs IH]; intros d Ha; [done|].
  rewrite fmap_cons in Ha. apply not_elem_of_cons in Ha as [Hne Ha].
  cbn [foldl]. rewrite IH by done. rewrite put_lookup.
  by rewrite decide_False.
Qed.

(** X17. [decode] touches only the nodes that have a record in the frame:
    the entry of any other address, with its time and its three lists, is
    after [decode] exactly what it was, and an address that was not known
    and has no record stays unknown. *)
Theorem decode_leaves_other_nodes
    (self : AdvertiserMessage) (b0 b1 : byte) (body : list byte) :
  data_payload self = b0 :: b1 :: body ->
  exists self',
    decode self = Ok self'
    /\ forall a, a ∉ (records (address_width b0) body).*1 ->
                 adv self' !! a = adv self !! a.
Proof.
  intros Hpayload. eexists. split; [by apply decode_payload|].
  cbn [adv set_adv set_header]. intros a Ha. by apply foldl_put_lookup_other.
Qed.

Lemma decode_leaves_other_nodes_witness :
  exists self',
    decode (Message frame_rss_repeat 9
              {[ 8 := Node (Some 1) [1%float] [2] [PyInt 3] ]} None None None)
    = Ok self'
    /\ adv self' !! 8 = Some (Node (Some 1) [1%float] [2] [PyInt 3])
    /\ adv self' !! 9 = None.
Proof.
  destruct (decode_leaves_other_nodes
              (Message frame_rss_repeat 9
                 {[ 8 := Node (Some 1) [1%float] [2] [PyInt 3] ]} None None None)
              x02 x00 (drop 2 frame_rss_repeat) eq_refl)
    as (self' & Hdecode & Hother).
  exists self'. split; [exact Hdecode|]. split.
  - rewrite (Hother 8); [reflexivity|]. vm_compute.
    intros Hin. repeat (apply elem_of_cons in Hin as [Hin|Hin]; [discriminate|]).
    by apply elem_of_nil in Hin.
  - rewrite (Hother 9); [reflexivity|]. vm_compute.
    intros Hin. repeat (apply elem_of_cons in Hin as [Hin|Hin]; [discriminate|]).
    by apply elem_of_nil in Hin.
Defined.

(** ** The inventory over a whole run *)

Lemma dequeued_frames_app es1 es2 :
  dequeued_frames (es1 ++ es2) = dequeued_frames es1 ++ dequeued_frames es2.
Proof. unfold dequeued_frames. apply omap_app. Qed.

Section RunFacts.
Context {I : Type} `{InventoryOps I}.

Lemma iteration_inventory (m : manager I) (env : answers) :
  exists new,
    events (iteration m env).2 = events m ++ new
    /\ inventory (iteration m env).2
       = foldl (λ i message, add_all message i) (inventory m) (dequeued_frames new).
Proof.
  unfold iteration.
  destruct (exit_is_set env).
  { exists [PollExit true]. by cbn. }
  destruct (rx_get env) as [message|].
  - cbn [emit set_empty_counter set_inventory empty_counter inventory events
         has_storage_queue].
    destruct (has_storage_queue m), (100 <? storage_qsize env),
      (out_of_time env);
      cbn [emit set_empty_counter set_inventory empty_counter inventory events
           has_storage_queue fst snd];
      repeat match goal with
             | |- context [if ?b then _ else _] => destruct b
             end;
      cbn [emit set_empty_counter set_inventory empty_counter inventory events
           has_storage_queue fst snd];
      rewrite <- ?app_assoc; eexists; (split; [reflexivity|]); by cbn.
  - cbn [emit set_empty_counter set_inventory empty_counter inventory events
         has_storage_queue].
    destruct (10 <? empty_counter m + 1), (out_of_time env);
      cbn [emit set_empty_counter set_inventory empty_counter inventory events
           has_storage_queue fst snd];
      rewrite <- ?app_assoc; eexists; (split; [reflexivity|]); by cbn.
Qed.

Lemma run_inventory (envs : list answers) :
  forall m : manager I,
    exists new,
      events (run m envs).2 = events m ++ new
      /\ inventory (run m envs).2
         = foldl (λ i message, add_all message i) (inventory m)
             (dequeued_frames new).
Proof.
  induction envs as [|env envs IH]; intros m.
  - exists []. by rewrite app_nil_r.
  - cbn [run].
    destruct (iteration_inventory m env) as (new1 & Hev1 & Hinv1).
    destruct (iteration m env) as [[|why] m1]; cbn [fst snd] in *.
    + destruct (IH m1) as (new2 & Hev2 & Hinv2).
      exists (new1 ++ new2). rewrite Hev2, Hev1, <- app_assoc. split; [done|].
      by rewrite Hinv2, Hinv1, dequeued_frames_app, foldl_app.
    + by exists new1.
Qed.

Lemma iteration_dequeues (m : manager I) (env : answers) :
  (dequeues (events (iteration m env).2) <= S (dequeues (events m)))%nat.
Proof.
  unfold iteration.
  repeat match goal with
         | |- context [if ?b then _ else _] => destruct b
         | |- context [match rx_get ?e with _ => _ end] => destruct (rx_get e)
         end;
    cbn [snd events emit set_empty_counter set_inventory];
    rewrite ?dequeues_snoc; simpl; lia.
Qed.

Lemma run_dequeues (envs : list answers) :
  forall m : manager I,
    (dequeues (events (run m envs).2) <= dequeues (events m) + length envs)%nat.
Proof.
  induction envs as [|env envs IH]; intros m; cbn [run].
  - simpl. lia.
  - pose proof (iteration_dequeues m env) as Hone.
    destruct (iteration m env) as [[|why] m1]; cbn [fst snd] in *.
    + specialize (IH m1). simpl. lia.
    + simpl. lia.
Qed.

End RunFacts.


(** ** The counter in the receive loop of tests/test_advertiser.py *)

Lemma count_and_decode_index counter message :
  (count_and_decode counter message).1 = counter + 1
  /\ forall m, (count_and_decode counter message).2 = Ok m ->
               index m = Some (counter + 1).
Proof.
  unfold count_and_decode, count. cbn [fst snd]. split; [done|].
  intros m Hm. by rewrite (decode_index _ _ Hm).
Qed.

Lemma tests_receive_all_index (messages : list AdvertiserMessage) :
  forall cls,
    attr_message_counter cls
    <= attr_message_counter (tests_receive_all cls messages).1
    <= attr_message_counter cls + Z.of_nat (length messages)
    /\ (Forall (λ message, (2 <= length (data_payload message))%nat) messages ->
          attr_message_counter (tests_receive_all cls messages).1
          = attr_message_counter cls + Z.of_nat (length messages))
    /\ attr_MESSAGE_COUNTER (tests_receive_all cls messages).1
       = attr_MESSAGE_COUNTER cls
    /\ forall (i : nat) m,
         (tests_receive_all cls messages).2 !! i = Some (Ok m) ->
         index m = Some (attr_message_counter cls + Z.of_nat i + 1).
Proof.
  induction messages as [|message messages IH]; intros cls.
  - simpl. split; [lia|]. split; [intros _; lia|]. split; [done|].
    intros i m Hi. done.
  - cbn [tests_receive_all length].
    destruct (count_and_decode_index (attr_message_counter cls) message)
      as [Hc Hm].
    assert (Hlong : (2 <= length (data_payload message))%nat ->
                    exists m, (count_and_decode (attr_message_counter cls) message).2
                              = Ok m).
    { intros Hlen. unfold count_and_decode, count. cbn [snd].
      destruct (data_payload message) as [|b0 [|b1 body]] eqn:E;
        [simpl in Hlen; lia|simpl in Hlen; lia|].
      eexists. by apply (decode_payload _ b0 b1 body). }
    destruct (count_and_decode (attr_message_counter cls) message) as [c r].
    cbn [fst snd] in Hc, Hm, Hlong. subst c.
    destruct r as [m0|e].
    + destruct (IH {| attr_message_counter := attr_message_counter cls + 1;
                      attr_MESSAGE_COUNTER := attr_MESSAGE_COUNTER cls |})
        as (IHle & IHc & IHM & IHm).
      destruct (tests_receive_all _ messages) as [cls' rs].
      cbn [fst snd attr_message_counter attr_MESSAGE_COUNTER] in *.
      split; [lia|]. split.
      { intros Hall. apply Forall_cons in Hall as [_ Hall].
        rewrite (IHc Hall). lia. }
      split; [done|].
      intros [|i] m Hi; simpl in Hi.
      * injection Hi as ->. rewrite (Hm m eq_refl). f_equal. lia.
      * rewrite (IHm i m Hi). f_equal. lia.
    + cbn [fst snd attr_message_counter attr_MESSAGE_COUNTER].
      split; [lia|]. split.
      { intros Hall. apply Forall_cons in Hall as [Hlen _].
        destruct (Hlong Hlen) as [m Hm']. done. }
      split; [done|].
      intros [|i] m Hi; simpl in Hi; [done|]. by destruct i.
Qed.


